(** * Tron: service supervision and the scheduling control loop

    A shallow embedding of [tron/service.py] and [tron/mcp.py].

    Python objects are mutable and shared (an instance is referenced from
    its service's roster, from local lists and from timers), so objects
    live in heaps indexed by an object reference and every method is a
    computation over the whole [World].  Exceptions leave the mutations
    made before the raise in place, as in Python. *)

From Stdlib Require Import ZArith QArith Qminmax Lia Bool DecimalString Sorted
  Permutation.
From stdpp Require Import base list strings.

Local Open Scope string_scope.
Local Open Scope list_scope.
Local Open Scope Z_scope.

(** ** tron.utils.state *)

(** Modelled from the spec: [tron.utils.state.NamedEventState] is a named
    node of a transition graph whose transition map is keyed by event
    name; the map of every state is given by a table. *)
Definition lookup_event {St : Type} (transitions : list (string * St))
    (event : string) : option St :=
  snd <$> find (fun kv => String.eqb (fst kv) event) transitions.

(** The callbacks that [service.py] registers on a machine or hands to the
    reactor are bound methods; the reference is the receiver. *)
Inductive Callback : Type :=
  | CB_instance_change (service_ref : nat)          (* Service._instance_change *)
  | CB_restart_after_failure (service_ref : nat)    (* Service._restart_after_failure *)
  | CB_run_monitor (instance_ref : nat).            (* ServiceInstance._run_monitor *)

(** Modelled from the spec: [tron.utils.state.StateMachine] holds the
    current state and the listeners registered with [listen(True, cb)],
    in registration order. *)
Record StateMachine (St : Type) : Type := mkStateMachine {
  state : St;
  listeners : list Callback
}.
Arguments mkStateMachine {St} _ _.
Arguments state {St} _.
Arguments listeners {St} _.

(** Modelled from the spec: assignment of [machine.state],
    [clear_listeners()] and [listen(True, callback)]. *)
Definition set_state {St} (m : StateMachine St) (s : St) : StateMachine St :=
  mkStateMachine s (listeners m).

Definition clear_listeners {St} (m : StateMachine St) : StateMachine St :=
  mkStateMachine (state m) [].

Definition listen {St} (m : StateMachine St) (cb : Callback) : StateMachine St :=
  mkStateMachine (state m) (listeners m ++ [cb]).

(** ** ServiceInstance states (service.py, lines 19-32) *)
Module ServiceInstanceState.

Inductive t : Type :=
  | STATE_DOWN | STATE_UP | STATE_FAILED | STATE_STOPPING
  | STATE_MONITORING | STATE_STARTING | STATE_UNKNOWN.

Definition eqb (a b : t) : bool :=
  match a, b with
  | STATE_DOWN, STATE_DOWN | STATE_UP, STATE_UP | STATE_FAILED, STATE_FAILED
  | STATE_STOPPING, STATE_STOPPING | STATE_MONITORING, STATE_MONITORING
  | STATE_STARTING, STATE_STARTING | STATE_UNKNOWN, STATE_UNKNOWN => true
  | _, _ => false
  end.

Definition name (s : t) : string :=
  match s with
  | STATE_DOWN => "down" | STATE_UP => "up" | STATE_FAILED => "failed"
  | STATE_STOPPING => "stopping" | STATE_MONITORING => "monitoring"
  | STATE_STARTING => "starting" | STATE_UNKNOWN => "unknown"
  end.

(** The transition map of each state once the class body has run: the
    keyword arguments of the constructor first, then the item
    assignments of lines 28-32. *)
Definition transitions (s : t) : list (string * t) :=
  match s with
  | STATE_DOWN => [("start", STATE_STARTING)]
  | STATE_UP => [("stop", STATE_STOPPING); ("monitor", STATE_MONITORING)]
  | STATE_FAILED => [("stop", STATE_DOWN); ("up", STATE_UP)]
  | STATE_STOPPING => [("down", STATE_DOWN)]
  | STATE_MONITORING =>
      [("down", STATE_FAILED); ("stop", STATE_STOPPING); ("up", STATE_UP);
       ("monitor_fail", STATE_UNKNOWN)]
  | STATE_STARTING =>
      [("down", STATE_FAILED); ("monitor", STATE_MONITORING);
       ("stop", STATE_STOPPING)]
  | STATE_UNKNOWN => [("monitor", STATE_MONITORING)]
  end.

End ServiceInstanceState.

(** ** Service states (service.py, lines 189-200) *)
Module ServiceState.

Inductive t : Type :=
  | STATE_DOWN | STATE_UP | STATE_DEGRADED | STATE_STOPPING
  | STATE_FAILED | STATE_STARTING.

Definition eqb (a b : t) : bool :=
  match a, b with
  | STATE_DOWN, STATE_DOWN | STATE_UP, STATE_UP
  | STATE_DEGRADED, STATE_DEGRADED | STATE_STOPPING, STATE_STOPPING
  | STATE_FAILED, STATE_FAILED | STATE_STARTING, STATE_STARTING => true
  | _, _ => false
  end.

Definition name (s : t) : string :=
  match s with
  | STATE_DOWN => "down" | STATE_UP => "up" | STATE_DEGRADED => "degraded"
  | STATE_STOPPING => "stopping" | STATE_FAILED => "failed"
  | STATE_STARTING => "starting"
  end.

Definition transitions (s : t) : list (string * t) :=
  match s with
  | STATE_DOWN => [("start", STATE_STARTING)]
  | STATE_UP =>
      [("stop", STATE_STOPPING); ("failed", STATE_DEGRADED);
       ("down", STATE_DEGRADED)]
  | STATE_DEGRADED =>
      [("stop", STATE_STOPPING); ("all_up", STATE_UP);
       ("all_failed", STATE_FAILED)]
  | STATE_STOPPING => [("all_down", STATE_DOWN)]
  | STATE_FAILED =>
      [("stop", STATE_STOPPING); ("up", STATE_DEGRADED);
       ("start", STATE_STARTING)]
  | STATE_STARTING =>
      [("all_up", STATE_UP); ("failed", STATE_DEGRADED);
       ("stop", STATE_STOPPING)]
  end.

Definition all_states : list t :=
  [STATE_DOWN; STATE_UP; STATE_DEGRADED; STATE_STOPPING; STATE_FAILED;
   STATE_STARTING].

(** Modelled from the spec: [state.named_event_by_name] maps a stored
    name back to the state of the graph that carries it, and fails when
    no state does. *)
Definition named_event_by_name (n : string) : option t :=
  find (fun s => String.eqb (name s) n) all_states.

End ServiceState.

Abbreviation IState := ServiceInstanceState.t.
Abbreviation SState := ServiceState.t.

(** Modelled from the spec: the pure part of [StateMachine.transition]:
    the target of [event] in the current state's map, if any. *)
Definition instance_next (s : IState) (event : string) : option IState :=
  lookup_event (ServiceInstanceState.transitions s) event.

Definition service_next (s : SState) (event : string) : option SState :=
  lookup_event (ServiceState.transitions s) event.

(** ** Collaborators: nodes, pools, actions, the reactor *)

(** Modelled from the spec: a node is an execution target known by its
    hostname. *)
Record Node : Type := mkNode { hostname : string }.

(** Modelled from the spec: a node pool is an ordered collection of nodes
    with a round-robin cursor and lookup by hostname. *)
Record NodePool : Type := mkNodePool {
  nodes : list Node;
  next_index : nat
}.

Definition pool_getitem (p : NodePool) (h : string) : option Node :=
  find (fun n => String.eqb (hostname n) h) (nodes p).

(** [action.ActionCommand(id, command)]; its exit status is delivered with
    the COMPLETE event (an argument of the completion callbacks below). *)
Record ActionCommand : Type := mkActionCommand {
  action_id : string;
  action_command : string
}.

(** One [reactor.callLater(delay, callback)]. *)
Record DelayedCall : Type := mkDelayedCall {
  delay : Z;
  call : Callback
}.

Inductive LogLevel : Type := DEBUG | INFO | WARNING | ERROR.

(** ** The two classes of service.py *)

Record ServiceInstance : Type := mkServiceInstance {
  service : nat;                     (* reference to the owning Service *)
  instance_number : Z;
  node : Node;
  instance_id : string;              (* self.id *)
  machine : StateMachine IState;
  monitor_action : option ActionCommand;
  start_action : option ActionCommand;
  kill_action : option ActionCommand;
  stop_action : option ActionCommand
}.

Record Service : Type := mkService {
  name : string;
  command : option string;
  scheduler : option string;
  node_pool : option nat;            (* reference to a NodePool *)
  count : Z;
  monitor_interval : option Z;
  restart_interval : option Z;
  _restart_timer : option nat;       (* reference to a DelayedCall *)
  service_machine : option (StateMachine SState);
  pid_file_template : option string;
  instances : list nat               (* references to ServiceInstances *)
}.

Definition with_machine (i : ServiceInstance) (m : StateMachine IState) :=
  mkServiceInstance (service i) (instance_number i) (node i) (instance_id i) m
    (monitor_action i) (start_action i) (kill_action i) (stop_action i).

Definition with_node (i : ServiceInstance) (n : Node) :=
  mkServiceInstance (service i) (instance_number i) n (instance_id i)
    (machine i) (monitor_action i) (start_action i) (kill_action i)
    (stop_action i).

Definition with_monitor_action (i : ServiceInstance) (a : option ActionCommand) :=
  mkServiceInstance (service i) (instance_number i) (node i) (instance_id i)
    (machine i) a (start_action i) (kill_action i) (stop_action i).

Definition with_start_action (i : ServiceInstance) (a : option ActionCommand) :=
  mkServiceInstance (service i) (instance_number i) (node i) (instance_id i)
    (machine i) (monitor_action i) a (kill_action i) (stop_action i).

Definition with_stop_action (i : ServiceInstance) (a : option ActionCommand) :=
  mkServiceInstance (service i) (instance_number i) (node i) (instance_id i)
    (machine i) (monitor_action i) (start_action i) (kill_action i) a.

Definition with_restart_timer (s : Service) (t : option nat) :=
  mkService (name s) (command s) (scheduler s) (node_pool s) (count s)
    (monitor_interval s) (restart_interval s) t (service_machine s)
    (pid_file_template s) (instances s).

Definition with_service_machine (s : Service) (m : option (StateMachine SState)) :=
  mkService (name s) (command s) (scheduler s) (node_pool s) (count s)
    (monitor_interval s) (restart_interval s) (_restart_timer s) m
    (pid_file_template s) (instances s).

Definition with_instances (s : Service) (l : list nat) :=
  mkService (name s) (command s) (scheduler s) (node_pool s) (count s)
    (monitor_interval s) (restart_interval s) (_restart_timer s)
    (service_machine s) (pid_file_template s) l.

(** ** The world: heaps of objects and the effects issued so far *)

Record World : Type := mkWorld {
  instance_heap : list ServiceInstance;
  service_heap : list Service;
  pool_heap : list NodePool;
  reactor : list DelayedCall;                 (* reactor.callLater calls *)
  node_runs : list (Node * ActionCommand);    (* node.run calls *)
  log : list (LogLevel * string)
}.

Inductive Exn : Type :=
  | InvalidStateError
  | AssertionError
  | UnboundLocalError (variable : string)
  | AttributeError
  | TypeError
  | ZeroDivisionError
  | IndexError
  | ValueError
  | DanglingReference.    (* a reference outside its heap; not a Python error *)

Inductive Outcome (A : Type) : Type :=
  | Ret (a : A)
  | Raise (e : Exn)
  | OutOfFuel.
Arguments Ret {A} _.
Arguments Raise {A} _.
Arguments OutOfFuel {A}.

Definition M (A : Type) : Type := World -> Outcome A * World.

Definition ret {A} (a : A) : M A := fun w => (Ret a, w).

Definition bind {A B} (m : M A) (k : A -> M B) : M B :=
  fun w =>
    match m w with
    | (Ret a, w') => k a w'
    | (Raise e, w') => (Raise e, w')
    | (OutOfFuel, w') => (OutOfFuel, w')
    end.

Definition raise {A} (e : Exn) : M A := fun w => (Raise e, w).

Notation "x <- c1 ;; c2" := (bind c1 (fun x => c2))
  (at level 100, c1 at next level, right associativity).
Notation "c1 ;; c2" := (bind c1 (fun _ => c2))
  (at level 100, right associativity).

Definition gets {A} (f : World -> A) : M A := fun w => (Ret (f w), w).
Definition modify (f : World -> World) : M unit := fun w => (Ret tt, f w).

Definition from_option {A} (e : Exn) (o : option A) : M A :=
  match o with Some a => ret a | None => raise e end.

Fixpoint for_each {A} (l : list A) (body : A -> M unit) : M unit :=
  match l with
  | [] => ret tt
  | x :: l' => body x ;; for_each l' body
  end.

(** A [for] loop that threads the local variables [S] of the enclosing
    function through its body. *)
Fixpoint for_each_with {A S} (l : list A) (body : A -> S -> M S) (s : S) : M S :=
  match l with
  | [] => ret s
  | x :: l' => s' <- body x s ;; for_each_with l' body s'
  end.

Fixpoint map_M {A B} (f : A -> M B) (l : list A) : M (list B) :=
  match l with
  | [] => ret []
  | x :: l' => y <- f x ;; ys <- map_M f l' ;; ret (y :: ys)
  end.

Definition set_instance_heap (w : World) (h : list ServiceInstance) : World :=
  mkWorld h (service_heap w) (pool_heap w) (reactor w) (node_runs w) (log w).
Definition set_service_heap (w : World) (h : list Service) : World :=
  mkWorld (instance_heap w) h (pool_heap w) (reactor w) (node_runs w) (log w).
Definition set_pool_heap (w : World) (h : list NodePool) : World :=
  mkWorld (instance_heap w) (service_heap w) h (reactor w) (node_runs w) (log w).
Definition set_reactor (w : World) (r : list DelayedCall) : World :=
  mkWorld (instance_heap w) (service_heap w) (pool_heap w) r (node_runs w) (log w).
Definition set_node_runs (w : World) (r : list (Node * ActionCommand)) : World :=
  mkWorld (instance_heap w) (service_heap w) (pool_heap w) (reactor w) r (log w).
Definition set_log (w : World) (l : list (LogLevel * string)) : World :=
  mkWorld (instance_heap w) (service_heap w) (pool_heap w) (reactor w)
    (node_runs w) l.

Definition get_instance (i : nat) : M ServiceInstance :=
  w <- gets instance_heap ;; from_option DanglingReference (w !! i).
Definition get_service (s : nat) : M Service :=
  w <- gets service_heap ;; from_option DanglingReference (w !! s).
Definition get_pool (p : nat) : M NodePool :=
  w <- gets pool_heap ;; from_option DanglingReference (w !! p).

Definition put_instance (i : nat) (x : ServiceInstance) : M unit :=
  modify (fun w => set_instance_heap w (<[i := x]> (instance_heap w))).
Definition put_service (s : nat) (x : Service) : M unit :=
  modify (fun w => set_service_heap w (<[s := x]> (service_heap w))).
Definition put_pool (p : nat) (x : NodePool) : M unit :=
  modify (fun w => set_pool_heap w (<[p := x]> (pool_heap w))).

Definition update_instance (i : nat) (f : ServiceInstance -> ServiceInstance) : M unit :=
  x <- get_instance i ;; put_instance i (f x).
Definition update_service (s : nat) (f : Service -> Service) : M unit :=
  x <- get_service s ;; put_service s (f x).

Definition log_msg (level : LogLevel) (msg : string) : M unit :=
  modify (fun w => set_log w (log w ++ [(level, msg)])).

(** [reactor.callLater(delay, callback)] returns the new delayed call. *)
Definition callLater (d : Z) (cb : Callback) : M nat :=
  r <- gets reactor ;;
  modify (fun w => set_reactor w (r ++ [mkDelayedCall d cb])) ;;
  ret (length r).

(** Modelled from the spec: [node.run(action)] dispatches the action
    asynchronously; COMPLETE or FAILSTART arrive later as callbacks. *)
Definition node_run (n : Node) (a : ActionCommand) : M unit :=
  modify (fun w => set_node_runs w (node_runs w ++ [(n, a)])).

(** ** Service: the aggregate machine and [_instance_change] *)

(** Modelled from the spec: [StateMachine.transition(event)], here
    [self.machine.transition(event)] of a service: a listed event moves
    the machine to its target, an unlisted one is a no-op.  A service whose
    machine was taken over has [None] there.  Nothing under [service.py]
    registers a listener on a service machine. *)
Definition Service_transition (s : nat) (event : string) : M unit :=
  svc <- get_service s ;;
  m <- from_option AttributeError (service_machine svc) ;;
  match service_next (state m) event with
  | None => ret tt
  | Some target =>
      update_service s
        (fun x => with_service_machine x (Some (set_state m target)))
  end.

(** The [state] property of a service. *)
Definition Service_state (s : nat) : M (option SState) :=
  svc <- get_service s ;; ret (state <$> service_machine svc).

(** The [state] property of an instance. *)
Definition ServiceInstance_state (i : nat) : M IState :=
  x <- get_instance i ;; ret (state (machine x)).

Definition with_states (l : list nat) : M (list (nat * IState)) :=
  map_M (fun i => st <- ServiceInstance_state i ;; ret (i, st)) l.

Definition state_is (st : IState) (p : nat * IState) : bool :=
  ServiceInstanceState.eqb (snd p) st.

Definition in_failure_state (st : SState) : bool :=
  ServiceState.eqb st ServiceState.STATE_DEGRADED
  || ServiceState.eqb st ServiceState.STATE_FAILED.

Definition _instance_change (s : nat) : M unit :=
  svc <- get_service s ;;
  all <- with_states (instances svc) ;;
  let kept :=
    List.filter (fun p => negb (state_is ServiceInstanceState.STATE_DOWN p)) all in
  update_service s (fun x => with_instances x (map fst kept)) ;;
  (match kept with
   | [] => Service_transition s "all_down"
   | _ :: _ =>
       if existsb (state_is ServiceInstanceState.STATE_FAILED) kept then
         Service_transition s "failed" ;;
         (if forallb (state_is ServiceInstanceState.STATE_FAILED) kept
          then Service_transition s "all_failed" else ret tt)
       else if Z.of_nat (length kept) <? count svc then
         log_msg INFO "Only found %d instances rather than %d" ;;
         Service_transition s "down"
       else if forallb (state_is ServiceInstanceState.STATE_UP) kept then
         Service_transition s "all_up"
       else ret tt
   end) ;;
  svc' <- get_service s ;;
  m <- from_option AttributeError (service_machine svc') ;;
  if in_failure_state (state m) then
    match restart_interval svc', _restart_timer svc' with
    | Some interval, None =>
        t <- callLater interval (CB_restart_after_failure s) ;;
        update_service s (fun x => with_restart_timer x (Some t))
    | _, _ => ret tt
    end
  else ret tt.

(** [machine.listen(True, cb)] callbacks registered on an instance machine
    are always some service's [_instance_change]. *)
Definition notify (cb : Callback) : M unit :=
  match cb with
  | CB_instance_change s => _instance_change s
  | _ => ret tt
  end.

(** Modelled from the spec: [StateMachine.transition(event)], here
    [self.machine.transition(event)] of an instance: when the event is in
    the current state's map the state is set and every listener runs, in
    registration order, before it returns; otherwise nothing happens. *)
Definition ServiceInstance_transition (i : nat) (event : string) : M unit :=
  x <- get_instance i ;;
  match instance_next (state (machine x)) event with
  | None => ret tt
  | Some target =>
      update_instance i
        (fun y => with_machine y (set_state (machine y) target)) ;;
      for_each (listeners (machine x)) notify
  end.

(** [self.instances.sort(key=lambda i: i.instance_number)]: a stable sort. *)
Fixpoint insert_by_key (x : nat * Z) (l : list (nat * Z)) : list (nat * Z) :=
  match l with
  | [] => [x]
  | y :: l' => if snd x <? snd y then x :: y :: l' else y :: insert_by_key x l'
  end.

Definition sort_by_key (l : list (nat * Z)) : list (nat * Z) :=
  fold_left (fun acc x => insert_by_key x acc) l [].

Definition with_numbers (l : list nat) : M (list (nat * Z)) :=
  map_M (fun i => x <- get_instance i ;; ret (i, instance_number x)) l.

Definition sort_instances (s : nat) : M unit :=
  svc <- get_service s ;;
  keyed <- with_numbers (instances svc) ;;
  update_service s (fun x => with_instances x (map fst (sort_by_key keyed))).

Definition truthy (s : string) : bool := negb (String.eqb s "").

Definition string_of_Z (z : Z) : string := NilZero.string_of_int (Z.to_int z).

(** What a template is rendered against: [CommandContext(self,
    service.context)] of an instance. *)
Record CommandContext : Type := mkCommandContext {
  ctx_name : string;
  ctx_instance_number : Z;
  ctx_node : string
}.

Definition context (svc : Service) (x : ServiceInstance) : CommandContext :=
  mkCommandContext (name svc) (instance_number x) (hostname (node x)).

Definition range (lo hi : Z) : list Z :=
  map (fun k => lo + Z.of_nat k) (seq 0 (Z.to_nat (hi - lo))).

Definition minimum (x : Z) (l : list Z) : Z := fold_right Z.min x l.

(** Modelled from the spec: [NodePool.next_round_robin] hands out the
    nodes of the pool in turn. *)
Definition next_round_robin (p : nat) : M Node :=
  pool <- get_pool p ;;
  n <- from_option IndexError
         (nodes pool !! (next_index pool mod length (nodes pool))%nat) ;;
  put_pool p (mkNodePool (nodes pool) (S (next_index pool))) ;;
  ret n.

Section Methods.

(** Template rendering, [template % context], belongs to
    [tron.command_context]; [None] stands for the [KeyError] of an
    unresolved variable. *)
Variable render : string -> CommandContext -> option string.

(** *** ServiceInstance *)

Definition pid_file (i : nat) : M (option string) :=
  x <- get_instance i ;;
  svc <- get_service (service x) ;;
  match pid_file_template svc with
  | Some t =>
      if truthy t then
        match render t (context svc x) with
        | Some p => ret (Some p)
        | None =>
            log_msg ERROR "Failed to render pid file template: %r" ;;
            ret None
        end
      else log_msg WARNING "No pid_file configured for service %s" ;; ret None
  | None => log_msg WARNING "No pid_file configured for service %s" ;; ret None
  end.

Definition instance_command (i : nat) : M (option string) :=
  x <- get_instance i ;;
  svc <- get_service (service x) ;;
  c <- from_option TypeError (command svc) ;;
  match render c (context svc x) with
  | Some r => ret (Some r)
  | None =>
      log_msg ERROR "Failed to render service command for service %s: %s" ;;
      ret None
  end.

Definition _queue_monitor (i : nat) : M unit :=
  update_instance i (fun x => with_monitor_action x None) ;;
  x <- get_instance i ;;
  svc <- get_service (service x) ;;
  match monitor_interval svc with
  | Some interval =>
      if 0 <? interval
      then callLater interval (CB_run_monitor i) ;; ret tt
      else ret tt
  | None => ret tt
  end.

Definition _monitor_complete_failstart (i : nat) : M unit :=
  ServiceInstance_transition i "monitor_fail" ;;
  _queue_monitor i ;;
  update_instance i (fun x => with_monitor_action x None).

Definition _run_monitor (i : nat) : M unit :=
  x <- get_instance i ;;
  match monitor_action x with
  | Some _ =>
      log_msg WARNING "Monitor action already exists, old callLater ?"
  | None =>
      ServiceInstance_transition i "monitor" ;;
      p <- pid_file i ;;
      match p with
      | None => _monitor_complete_failstart i
      | Some pid =>
          let a := mkActionCommand
                     (String.append (instance_id x) ".monitor")
                     (String.append "cat "
                        (String.append pid " | xargs kill -0")) in
          update_instance i (fun y => with_monitor_action y (Some a)) ;;
          y <- get_instance i ;;
          node_run (node y) a
      end
  end.

(** COMPLETE of the monitor action, with the exit status it carries.
    ([last_check], a clock reading nothing else uses, is left out.) *)
Definition _monitor_complete_callback (i : nat) (exit_status : Z) : M unit :=
  x <- get_instance i ;;
  match monitor_action x with
  | None => raise AssertionError
  | Some _ =>
      log_msg DEBUG "Monitor callback with exit %r" ;;
      (if negb (exit_status =? 0)
       then ServiceInstance_transition i "down"
       else ServiceInstance_transition i "up" ;; _queue_monitor i) ;;
      update_instance i (fun y => with_monitor_action y None)
  end.

(** [assert self.pid_file, self.pid_file]: a failing assertion reads the
    property once more, for its message. *)
Definition kill_instance (i : nat) : M unit :=
  p <- pid_file i ;;
  match p with
  | None => pid_file i ;; raise AssertionError
  | Some pid =>
      if truthy pid then
        x <- get_instance i ;;
        let a := mkActionCommand
                   (String.append (instance_id x) ".stop")
                   (String.append "cat "
                      (String.append pid " | xargs kill")) in
        update_instance i (fun y => with_stop_action y (Some a)) ;;
        node_run (node x) a
      else pid_file i ;; raise AssertionError
  end.

Definition _start_complete_failstart (i : nat) : M unit :=
  log_msg WARNING "Failed to start service %s (%s)" ;;
  ServiceInstance_transition i "down" ;;
  update_instance i (fun x => with_start_action x None).

Definition ServiceInstance_start (i : nat) : M unit :=
  st <- ServiceInstance_state i ;;
  if negb (ServiceInstanceState.eqb st ServiceInstanceState.STATE_DOWN)
  then raise InvalidStateError
  else
    ServiceInstance_transition i "start" ;;
    c <- instance_command i ;;
    match c with
    | None => _start_complete_failstart i
    | Some cmd =>
        x <- get_instance i ;;
        let a := mkActionCommand (String.append (instance_id x) ".start") cmd in
        update_instance i (fun y => with_start_action y (Some a)) ;;
        node_run (node x) a
    end.

(** COMPLETE of the start action, with its exit status. *)
Definition _start_complete_callback (i : nat) (exit_status : Z) : M unit :=
  x <- get_instance i ;;
  _ <- from_option AttributeError (start_action x) ;;
  (if negb (exit_status =? 0) then ServiceInstance_transition i "down"
   else
     st <- ServiceInstance_state i ;;
     if ServiceInstanceState.eqb st ServiceInstanceState.STATE_STOPPING
     then kill_instance i
     else _queue_monitor i) ;;
  update_instance i (fun y => with_start_action y None).

Definition ServiceInstance_stop (i : nat) : M unit :=
  ServiceInstance_transition i "stop" ;;
  st <- ServiceInstance_state i ;;
  if ServiceInstanceState.eqb st ServiceInstanceState.STATE_STOPPING
  then kill_instance i
  else ret tt.

(** COMPLETE of the kill action, with its exit status. *)
Definition _stop_complete_callback (i : nat) (exit_status : Z) : M unit :=
  x <- get_instance i ;;
  _ <- from_option AttributeError (stop_action x) ;;
  (if negb (exit_status =? 0)
   then log_msg ERROR "Failed to stop service instance %s: Exit %r"
   else ret tt) ;;
  _queue_monitor i ;;
  update_instance i (fun y => with_stop_action y None).

Definition _stop_complete_failstart (i : nat) : M unit :=
  log_msg WARNING "Failed to start kill command for %s" ;;
  _queue_monitor i.

(** *** Service *)

Definition _clear_failed_instances (s : nat) : M unit :=
  svc <- get_service s ;;
  all <- with_states (instances svc) ;;
  update_service s
    (fun x =>
       with_instances x
         (map fst
            (List.filter
               (fun p => negb (state_is ServiceInstanceState.STATE_FAILED p))
               all))).

(** [ServiceInstance(self, node, instance_number)] is allocated with its
    machine in [down] and no action; the attribute [stop_action] does not
    exist before [kill_instance], which [None] stands for. *)
Definition _create_instance (s : nat) (n : Node) (number : Z) : M nat :=
  svc <- get_service s ;;
  h <- gets instance_heap ;;
  let i := length h in
  let x := mkServiceInstance s number n
             (String.append (name svc) (String.append "." (string_of_Z number)))
             (mkStateMachine ServiceInstanceState.STATE_DOWN [])
             None None None None in
  modify (fun w => set_instance_heap w (h ++ [x])) ;;
  update_service s (fun y => with_instances y (instances y ++ [i])) ;;
  sort_instances s ;;
  update_instance i
    (fun y => with_machine y (listen (machine y) (CB_instance_change s))) ;;
  ret i.

Definition _find_unused_instance_number (s : nat) : M (option Z) :=
  svc <- get_service s ;;
  keyed <- with_numbers (instances svc) ;;
  let used := map snd keyed in
  let available_instance_numbers :=
    List.filter (fun n => negb (existsb (Z.eqb n) used)) (range 0 (count svc)) in
  match available_instance_numbers with
  | [] => ret None
  | n :: rest => ret (Some (minimum n rest))
  end.

Definition build_instance (s : nat) : M (option nat) :=
  svc <- get_service s ;;
  p <- from_option AttributeError (node_pool svc) ;;
  n <- next_round_robin p ;;
  instance_number <- _find_unused_instance_number s ;;
  match instance_number with
  | None =>
      log_msg ERROR
        "Can't build a new service instance for %r. %d instances in use. Maybe try again later ?" ;;
      ret None
  | Some number =>
      i <- _create_instance s n number ;;
      ServiceInstance_start i ;;
      ret (Some i)
  end.

Definition Service_start (s : nat) : M unit :=
  update_service s (fun x => with_restart_timer x None) ;;
  _clear_failed_instances s ;;
  svc <- get_service s ;;
  let needed_instances_count := count svc - Z.of_nat (length (instances svc)) in
  (if 0 <? needed_instances_count
   then for_each (range 0 needed_instances_count)
          (fun _ => build_instance s ;; ret tt)
   else ret tt) ;;
  Service_transition s "start".

Definition _restart_after_failure (s : nat) : M unit :=
  svc <- get_service s ;;
  match _restart_timer svc with
  | None => ret tt
  | Some _ =>
      st <- Service_state s ;;
      match st with
      | Some ServiceState.STATE_DEGRADED | Some ServiceState.STATE_FAILED =>
          log_msg INFO "Restarting failed instances for service %s" ;;
          Service_start s
      | _ => update_service s (fun x => with_restart_timer x None)
      end
  end.

Definition Service_stop (s : nat) : M unit :=
  Service_transition s "stop" ;;
  svc <- get_service s ;;
  for_each (instances svc) ServiceInstance_stop ;;
  st <- Service_state s ;;
  svc' <- get_service s ;;
  match st, instances svc' with
  | Some ServiceState.STATE_STOPPING, [] => Service_transition s "all_down"
  | _, _ => ret tt
  end.

(** [i.state not in (STATE_STOPPING, STATE_DOWN, STATE_FAILED)] *)
Definition is_current (p : nat * IState) : bool :=
  negb (state_is ServiceInstanceState.STATE_STOPPING p
        || state_is ServiceInstanceState.STATE_DOWN p
        || state_is ServiceInstanceState.STATE_FAILED p).

Definition current_instances (s : nat) : M (list nat) :=
  svc <- get_service s ;;
  all <- with_states (instances svc) ;;
  ret (map fst (List.filter is_current all)).

(** [removed_instances += 1] on a local that may not be bound yet. *)
Definition incr (variable : string) (v : option Z) : M (option Z) :=
  match v with
  | None => raise (UnboundLocalError variable)
  | Some k => ret (Some (k + 1))
  end.

(** [l[-k:]] for [k > 0]. *)
Definition last_n {A} (k : Z) (l : list A) : list A :=
  skipn (length l - Z.to_nat k) l.

(** A [collections.defaultdict(int)] keyed by node. *)
Definition tally (d : list (string * Z)) (n : Node) : Z :=
  match find (fun kv => String.eqb (fst kv) (hostname n)) d with
  | Some kv => snd kv
  | None => 0
  end.

Definition option_nat_eqb (a b : option nat) : bool :=
  match a, b with
  | Some x, Some y => Nat.eqb x y
  | None, None => true
  | _, _ => false
  end.

Definition option_string_eqb (a b : option string) : bool :=
  match a, b with
  | Some x, Some y => String.eqb x y
  | None, None => true
  | _, _ => false
  end.

(** [while len(self.instances) < self.count: self.build_instance()] *)
Fixpoint fill_shortfall (fuel : nat) (s : nat) : M unit :=
  svc <- get_service s ;;
  if Z.of_nat (length (instances svc)) <? count svc then
    match fuel with
    | O => fun w => (OutOfFuel, w)
    | S fuel' => build_instance s ;; fill_shortfall fuel' s
    end
  else ret tt.

(** The locals of [absorb_previous] are threaded explicitly;
    [removed_instances] is unbound until line 388 assigns it. *)
Definition absorb_previous (fuel : nat) (self prev_service : nat) : M unit :=
  s0 <- get_service self ;;
  p0 <- get_service prev_service ;;
  let rebuild_all_instances :=
    negb (option_string_eqb (command s0) (command p0))
    || negb (option_string_eqb (scheduler s0) (scheduler p0)) in
  update_service self (fun x => with_service_machine x (service_machine p0)) ;;
  update_service prev_service (fun x => with_service_machine x None) ;;
  p1 <- get_service prev_service ;;
  update_service self (fun x => with_instances x (instances x ++ instances p1)) ;;
  _ <- for_each_with (instances p1)
         (fun i (removed_instances : option Z) =>
            update_instance i
              (fun x => with_machine x
                          (listen (clear_listeners (machine x))
                             (CB_instance_change self))) ;;
            if rebuild_all_instances then
              ServiceInstance_stop i ;;
              incr "removed_instances" removed_instances
            else ret removed_instances)
         None ;;
  update_service prev_service (fun x => with_instances x []) ;;
  sort_instances self ;;
  current <- current_instances self ;;
  s1 <- get_service self ;;
  p2 <- get_service prev_service ;;
  removed_instances <-
    (if negb (option_nat_eqb (node_pool s1) (node_pool p2)) then
       pool_ref <- from_option AttributeError (node_pool s1) ;;
       pool <- get_pool pool_ref ;;
       (if (length (nodes pool) =? 0)%nat then raise ZeroDivisionError else ret tt) ;;
       let optimal_instances_per_node := count s1 / Z.of_nat (length (nodes pool)) in
       r <- for_each_with current
              (fun i (locals : Z * list (string * Z)) =>
                 let (removed_instances, instance_count_per_node) := locals in
                 x <- get_instance i ;;
                 match pool_getitem pool (hostname (node x)) with
                 | None =>
                     log_msg INFO
                       "Stopping instance %r because it's not on a current node (%r)" ;;
                     ServiceInstance_stop i ;;
                     ret (removed_instances + 1, instance_count_per_node)
                 | Some n =>
                     update_instance i (fun y => with_node y n) ;;
                     let c := tally instance_count_per_node n + 1 in
                     let d := (hostname n, c) :: instance_count_per_node in
                     if optimal_instances_per_node <? c then
                       log_msg INFO
                         "Stopping instance %r because node %s has too many instances" ;;
                       ServiceInstance_stop i ;;
                       ret (removed_instances + 1, d)
                     else ret (removed_instances, d)
                 end)
              (0, []) ;;
       ret (fst r)
     else ret 0) ;;
  current' <- current_instances self ;;
  s2 <- get_service self ;;
  let count_to_remove :=
    (Z.of_nat (length (instances s2)) - removed_instances) - count s2 in
  _ <- (if 0 <? count_to_remove then
          for_each_with (last_n count_to_remove current')
            (fun i (removed_instances : Z) =>
               ServiceInstance_stop i ;; ret (removed_instances + 1))
            removed_instances
        else ret removed_instances) ;;
  fill_shortfall fuel self.

(** *** Snapshot and restore *)

Record InstanceData : Type := mkInstanceData {
  data_node : string;
  data_instance_number : Z;
  data_instance_state : string
}.

Record ServiceData : Type := mkServiceData {
  data_state : string;
  data_instances : list InstanceData
}.

Definition instance_data (i : nat) : M InstanceData :=
  x <- get_instance i ;;
  ret (mkInstanceData (hostname (node x)) (instance_number x)
         (ServiceInstanceState.name (state (machine x)))).

Definition Service_data (s : nat) : M ServiceData :=
  svc <- get_service s ;;
  m <- from_option AttributeError (service_machine svc) ;;
  l <- map_M instance_data (instances svc) ;;
  ret (mkServiceData (ServiceState.name (state m)) l).

Definition restore_instance (s : nat) (d : InstanceData) : M unit :=
  svc <- get_service s ;;
  pool_ref <- from_option TypeError (node_pool svc) ;;
  pool <- get_pool pool_ref ;;
  match pool_getitem pool (data_node d) with
  | None => log_msg ERROR "Failed to find node %s in pool for %s"
  | Some n =>
      i <- _create_instance s n (data_instance_number d) ;;
      update_instance i
        (fun x => with_machine x
                    (set_state (machine x) ServiceInstanceState.STATE_MONITORING)) ;;
      _run_monitor i
  end.

Definition restore (s : nat) (data : ServiceData) : M unit :=
  svc <- get_service s ;;
  m <- from_option AttributeError (service_machine svc) ;;
  st <- from_option ValueError (ServiceState.named_event_by_name (data_state data)) ;;
  update_service s (fun x => with_service_machine x (Some (set_state m st))) ;;
  if ServiceState.eqb st ServiceState.STATE_DOWN then ret tt
  else
    for_each (data_instances data) (restore_instance s) ;;
    sort_instances s.

(** The reactor firing a delayed call. *)
Definition fire (cb : Callback) : M unit :=
  match cb with
  | CB_instance_change s => _instance_change s
  | CB_restart_after_failure s => _restart_after_failure s
  | CB_run_monitor i => _run_monitor i
  end.

End Methods.

(** ** IEEE 754 binary64, the [float] of Python *)
Module Binary64.

(** A finite binary64 number is an integer multiple of [2^-1074], the
    least positive subnormal, and is represented by that integer: [x]
    stands for [x * 2^-1074].  The multiples that are binary64 numbers
    are those of at most 53 significant bits.  Infinities and NaN do not
    arise in [mcp.py] and are left out. *)
Definition one : Z := 2 ^ 1074.

(** [p / 2^t] rounded to the nearest integer, a tie to the even one. *)
Definition round_half_even (p t : Z) : Z :=
  let q := p / 2 ^ t in
  let r := p mod 2 ^ t in
  match 2 * r ?= 2 ^ t with
  | Lt => q
  | Gt => q + 1
  | Eq => if Z.even q then q else q + 1
  end.

(** The binary64 number nearest to [p * 2^-k] units, for [p >= 0]: 53
    significant bits are kept, and whole units where the value has fewer
    bits than that above the unit (gradual underflow). *)
Definition round_pos (p k : Z) : Z :=
  let s := Z.max 0 (Z.log2 p - k - 52) in
  round_half_even p (k + s) * 2 ^ s.

(** Rounding is symmetric about zero. *)
Definition round (p k : Z) : Z :=
  if p <? 0 then - round_pos (- p) k else round_pos p k.

(** [float(n)] of an integer. *)
Definition of_int (n : Z) : Z := round (n * one) 0.

(** [x + y] and [x * y]: the exact result, rounded. *)
Definition add (x y : Z) : Z := round (x + y) 0.
Definition mul (x y : Z) : Z := round (x * y) 1074.

(** The rational that [x] stands for. *)
Definition to_Q (x : Z) : Q := x # Z.to_pos one.

End Binary64.

(** ** tron/mcp.py *)
Module Mcp.

Definition SECS_PER_DAY : Z := 86400.
(** [.000001]: the binary64 number nearest to 10^-6, which is
    [0x3EB0C6F7A0B5ED8D], that is 4722366482869645 * 2^-72. *)
Definition MICRO_SEC : Z := 4722366482869645 * 2 ^ 1002.
Definition STATE_FILE : string := "tron_state.yaml".
Definition STATE_SLEEP : Z := 3.

(** A [datetime] is a count of microseconds; a [timedelta] is kept
    normalised by Python: [0 <= seconds < 86400] and
    [0 <= microseconds < 1000000], the sign is carried by [days]. *)
Definition datetime : Type := Z.

Record timedelta : Type := mkTimedelta {
  days : Z;
  seconds : Z;
  microseconds : Z
}.

Definition datetime_sub (a b : datetime) : timedelta :=
  let us := a - b in
  mkTimedelta (us / (SECS_PER_DAY * 1000000))
              ((us mod (SECS_PER_DAY * 1000000)) / 1000000)
              (us mod 1000000).

(** [timeutils.current_time()] is the argument [now].  The sum is
    computed as Python computes it: the two integers are converted to
    binary64, the product and the sum are rounded.  [max(0, seconds)] is
    the integer 0 unless [seconds] is positive. *)
Definition sleep_time (now run_time : datetime) : Q :=
  let sleep := datetime_sub run_time now in
  let seconds :=
    Binary64.add
      (Binary64.of_int (days sleep * SECS_PER_DAY + seconds sleep))
      (Binary64.mul (Binary64.of_int (microseconds sleep)) MICRO_SEC) in
  Qmax 0 (Binary64.to_Q seconds).

(** *** StateHandler.store_data *)

Record StateHandler : Type := mkStateHandler {
  working_dir : string;
  write_pid : option Z;
  writing_enabled : bool
}.

Inductive Effect : Type :=
  | Waitpid (pid : Z)                  (* os.waitpid(pid, os.WNOHANG) *)
  | LogInfo (msg : string)
  | Fork                               (* os.fork() *)
  | WriteFile (path : string)          (* open, yaml.dump, close *)
  | Exit                               (* os._exit(os.EX_OK) *)
  | CallLater (delay : Z).             (* reactor.callLater(delay, self.store_data) *)

(** [self.write_pid and not os.waitpid(self.write_pid, os.WNOHANG)[0]],
    with the effects of evaluating it: [waitpid] answers 0 while the
    child has not exited. *)
Definition write_outstanding (waitpid : Z -> Z) (h : StateHandler)
    : bool * list Effect :=
  match write_pid h with
  | None => (false, [])
  | Some pid =>
      if pid =? 0 then (false, [])
      else (waitpid pid =? 0, [Waitpid pid])
  end.

(** [waitpid] and [fork] are the answers of the operating system;
    [fork] is 0 in the child.  The result is the handler as the calling
    process leaves it and the effects that process performed. *)
Definition store_data (waitpid : Z -> Z) (fork : Z) (h : StateHandler)
    : StateHandler * list Effect :=
  if negb (writing_enabled h) then (h, [])
  else
    let (outstanding, waited) := write_outstanding waitpid h in
    if outstanding then (h, waited)
    else
      let file_path := String.append (working_dir h) (String.append "/" STATE_FILE) in
      let pre := waited ++ [LogInfo "Storing state in %s"; Fork] in
      if negb (fork =? 0) then
        (mkStateHandler (working_dir h) (Some fork) (writing_enabled h),
         pre ++ [CallLater STATE_SLEEP])
      else (h, pre ++ [WriteFile file_path; Exit]).

Definition forks (l : list Effect) : nat :=
  length (List.filter (fun e => match e with Fork => true | _ => false end) l).

Definition rearms (l : list Effect) : nat :=
  length (List.filter (fun e => match e with CallLater _ => true | _ => false end) l).

(** *** MasterControlProgram.schedule_next_run *)

(** Modelled from the spec: the Run contract, [is_scheduled],
    [run_time] and [set_run_time(t)]. *)
Record Run : Type := mkRun {
  run_job_name : string;
  run_time : datetime;
  is_scheduled : bool
}.

(** Modelled from the spec: [run.set_run_time(t)] moves the scheduled
    time of the run. *)
Definition set_run_time (r : Run) (t : datetime) : Run :=
  mkRun (run_job_name r) t (is_scheduled r).

(** Modelled from the spec: a Job has an ordered run history, most
    recent first; runs are shared objects, kept in a heap. *)
Record Job : Type := mkJob {
  job_name : string;
  enabled : bool;
  runs : list nat
}.

Record JobStore : Type := mkJobStore {
  job_heap : list Job;
  run_heap : list Run
}.

(** One [reactor.callLater(sleep, self.run_job, run)]. *)
Record Timer : Type := mkTimer {
  timer_delay : Q;
  timer_run : nat
}.

Record State : Type := mkState {
  store : JobStore;
  timers : list Timer
}.

(** [job.runs and job.runs[0].is_scheduled] *)
Definition has_scheduled_run (st : JobStore) (job : nat) : bool :=
  match job_heap st !! job with
  | Some j =>
      match runs j with
      | [] => false
      | r :: _ =>
          match run_heap st !! r with
          | Some x => is_scheduled x
          | None => false
          end
      end
  | None => false
  end.

Section Scheduling.

(** [job.next_run()] belongs to [tron.job]: it answers a run or
    [None] and may record the run in the job. *)
Variable next_run : JobStore -> nat -> option nat * JobStore.

Definition _schedule (now : datetime) (run : nat) (s : State) : State :=
  match run_heap (store s) !! run with
  | None => s
  | Some r =>
      let sleep := sleep_time now (run_time r) in
      let st :=
        if Qeq_bool sleep 0
        then mkJobStore (job_heap (store s))
               (<[run := set_run_time r now]> (run_heap (store s)))
        else store s in
      mkState st (timers s ++ [mkTimer sleep run])
  end.

Definition schedule_next_run (now : datetime) (job : nat) (s : State) : State :=
  if has_scheduled_run (store s) job then s
  else
    let (next, st) := next_run (store s) job in
    match next with
    | Some run => _schedule now run (mkState st (timers s))
    | None => mkState st (timers s)
    end.

End Scheduling.

End Mcp.

(** ** The arithmetic of [sleep_time] *)

(** [us * MICRO_SEC] for an integer [us]: the fraction of a second that
    [us] microseconds make. *)
Definition fraction (us : Z) : Z :=
  Binary64.mul (Binary64.of_int us) Mcp.MICRO_SEC.

(** The seconds that [sleep_time] computes for a difference of [d]
    microseconds. *)
Definition seconds_of (d : Z) : Z :=
  Binary64.add (Binary64.of_int (d / 1000000)) (fraction (d mod 1000000)).

(** ** Actions in flight *)

Definition slot (a : option ActionCommand) : nat :=
  match a with Some _ => 1 | None => 0 end.

(** The number of action slots of an instance that hold an action. *)
Definition in_flight (x : ServiceInstance) : nat :=
  (slot (monitor_action x) + slot (start_action x) + slot (stop_action x))%nat.

(** ** What the aggregate handler is meant to do

    [_instance_change] restated from its description, as a function on
    worlds, to be compared with the code above. *)

Definition state_at (w : World) (i : nat) : option IState :=
  (state ∘ machine) <$> (instance_heap w !! i).

Definition instance_states (w : World) (l : list nat) : list (nat * IState) :=
  omap (fun i => pair i <$> state_at w i) l.

(** The instances that have not settled in [down]. *)
Definition not_down (w : World) (l : list nat) : list (nat * IState) :=
  List.filter (fun p => negb (state_is ServiceInstanceState.STATE_DOWN p))
    (instance_states w l).

(** The events fired, by priority. *)
Definition aggregate_events (target : Z) (live : list (nat * IState)) : list string :=
  if Nat.eqb (length live) 0 then ["all_down"]
  else if existsb (state_is ServiceInstanceState.STATE_FAILED) live then
    if forallb (state_is ServiceInstanceState.STATE_FAILED) live
    then ["failed"; "all_failed"] else ["failed"]
  else if Z.of_nat (length live) <? target then ["down"]
  else if forallb (state_is ServiceInstanceState.STATE_UP) live then ["all_up"]
  else [].

Definition fire_event (st : SState) (event : string) : SState :=
  default st (service_next st event).

Definition fire_events (st : SState) (events : list string) : SState :=
  fold_left fire_event events st.

Definition set_service (w : World) (s : nat) (svc : Service) : World :=
  set_service_heap w (<[s := svc]> (service_heap w)).

(** A restart timer is armed when the machine is degraded or failed, an
    interval is configured and no timer is pending. *)
Definition arms_restart (svc : Service) (st : SState) : option Z :=
  if in_failure_state st then
    match restart_interval svc, _restart_timer svc with
    | Some interval, None => Some interval
    | _, _ => None
    end
  else None.

Definition instance_change_spec (s : nat) (svc : Service)
    (m : StateMachine SState) (w : World) : World :=
  let live := not_down w (instances svc) in
  let events := aggregate_events (count svc) live in
  let st := fire_events (state m) events in
  let svc' :=
    with_service_machine (with_instances svc (map fst live))
      (Some (set_state m st)) in
  let w' :=
    set_log (set_service w s svc')
      (log w ++ (if existsb (String.eqb "down") events
                 then [(INFO, "Only found %d instances rather than %d")]
                 else [])) in
  match arms_restart svc st with
  | Some interval =>
      set_service
        (set_reactor w'
           (reactor w ++ [mkDelayedCall interval (CB_restart_after_failure s)]))
        s (with_restart_timer svc' (Some (length (reactor w))))
  | None => w'
  end.

(** ** Instance numbers *)

Definition number_of (w : World) (i : nat) : Z :=
  default 0 (instance_number <$> (instance_heap w !! i)).

Definition keyed (w : World) (l : list nat) : list (nat * Z) :=
  map (fun i => (i, number_of w i)) l.

(** The instance numbers held by the roster [l]. *)
Definition numbers (w : World) (l : list nat) : list Z := map (number_of w) l.

(** The answer of [_find_unused_instance_number] for a target [n] and
    the numbers [used]. *)
Definition lowest_unused (n : Z) (used : list Z) : option Z :=
  match List.filter (fun k => negb (existsb (Z.eqb k) used)) (range 0 n) with
  | [] => None
  | k :: rest => Some (minimum k rest)
  end.

(** ** Assertions about a service that builds instances *)

(** Every instance of the roster exists, in a state accepted by [ok]. *)
Definition roster_ok (ok : IState -> bool) (w : World) (l : list nat) : Prop :=
  Forall (fun j => exists x, instance_heap w !! j = Some x
                             /\ ok (state (machine x)) = true) l.

(** Service [s] is configured with command [c], a pool [p] that has a
    node and target [n]; it owns a machine whose state satisfies [Sok]. *)
Definition serving (s : nat) (c : string) (p : nat) (n : Z)
    (ok : IState -> bool) (Sok : SState -> Prop) (w : World) (svc : Service) : Prop :=
  service_heap w !! s = Some svc
  /\ (exists m, service_machine svc = Some m /\ Sok (state m))
  /\ command svc = Some c
  /\ node_pool svc = Some p
  /\ count svc = n
  /\ (exists pool, pool_heap w !! p = Some pool /\ nodes pool <> [])
  /\ roster_ok ok w (instances svc).

(** The state of the machine of service [s], if it has one. *)
Definition machine_state (w : World) (s : nat) : option SState :=
  state <$> (service_heap w !! s ≫= service_machine).

(** The states of the instances that [_clear_failed_instances] keeps. *)
Definition not_failed (st : IState) : bool :=
  negb (ServiceInstanceState.eqb st ServiceInstanceState.STATE_FAILED).

(** A computation that does not complete normally, whatever the world. *)
Definition never_returns {A} (m : M A) : Prop :=
  forall w a, fst (m w) <> Ret a.

(** ** What [restore] builds *)

(** The monitor action of an instance with identifier [id] and pid file
    [pid]. *)
Definition monitor_command (id pid : string) : ActionCommand :=
  mkActionCommand (String.append id ".monitor")
    (String.append "cat " (String.append pid " | xargs kill -0")).

(** The instance [restore] recreates on node [n] from the record [d] of
    a snapshot, once its first monitor cycle is dispatched. *)
Definition restored_instance (s : nat) (svc : Service) (n : Node)
    (d : InstanceData) (pid : string) : ServiceInstance :=
  let id := String.append (name svc)
              (String.append "." (string_of_Z (data_instance_number d))) in
  mkServiceInstance s (data_instance_number d) n id
    (mkStateMachine ServiceInstanceState.STATE_MONITORING [CB_instance_change s])
    (Some (monitor_command id pid)) None None None.

(** The monitor dispatch of a restored instance. *)
Definition monitor_dispatch (y : ServiceInstance) : option (Node * ActionCommand) :=
  pair (node y) <$> monitor_action y.

(** The record [d] of a snapshot can be restored on node [np.1] with pid
    file [np.2]: its node is in the pool and the pid file renders. *)
Definition restorable (render : string -> CommandContext -> option string)
    (svc_name t : string) (pool : NodePool) (d : InstanceData)
    (np : Node * string) : Prop :=
  pool_getitem pool (data_node d) = Some (fst np)
  /\ render t (mkCommandContext svc_name (data_instance_number d) (hostname (fst np)))
     = Some (snd np).

(** ** Assertions used in the proofs *)

(** [preserves I m]: whatever [m] does, and however it ends, a world
    satisfying [I] still satisfies it afterwards. *)
Definition preserves {A} (I : World -> Prop) (m : M A) : Prop :=
  forall w, I w -> I (snd (m w)).

(** The instance heap is [h] and the actions dispatched so far are [r]
    (what the operations of a service on itself leave alone). *)
Definition instances_and_runs_are (h : list ServiceInstance)
    (r : list (Node * ActionCommand)) (w : World) : Prop :=
  instance_heap w = h /\ node_runs w = r.

(** Every reference of [l] points into the instance heap. *)
Definition valid_refs (w : World) (l : list nat) : Prop :=
  Forall (fun i => is_Some (instance_heap w !! i)) l.

(** The instance a service creates. *)
Definition new_instance (s : nat) (svc : Service) (n : Node) (number : Z)
    : ServiceInstance :=
  mkServiceInstance s number n
    (String.append (name svc) (String.append "." (string_of_Z number)))
    (mkStateMachine ServiceInstanceState.STATE_DOWN [CB_instance_change s])
    None None None None.

(** ** Configurations used in the examples *)

(** A renderer for templates without variables: such a template renders
    as itself, and any reference [%(key)s] is unresolved. *)
Definition render_literal (t : string) (c : CommandContext) : option string :=
  match String.index 0 "%(" t with
  | Some _ => None
  | None => Some t
  end.

Definition pool_ab : NodePool := mkNodePool [mkNode "a"; mkNode "b"] 0.

(** A service as [__init__] and the configuration leave it. *)
Definition web (cmd : string) (n : Z) : Service :=
  mkService "web" (Some cmd) None (Some 0%nat) n (Some 30) (Some 60) None
    (Some (mkStateMachine ServiceState.STATE_DOWN [])) (Some "/var/run/web.pid") [].

Definition boot (n : Z) : World := mkWorld [] [web "serve" n] [pool_ab] [] [] [].

(** What the event loop can do to a world. *)
Inductive Op : Type :=
  | Op_Service_start (s : nat)
  | Op_Service_stop (s : nat)
  | Op_fire (k : nat)                          (* the k-th delayed call fires *)
  | Op_start_complete (i : nat) (exit_status : Z)
  | Op_start_failstart (i : nat)
  | Op_monitor_complete (i : nat) (exit_status : Z)
  | Op_monitor_failstart (i : nat)
  | Op_stop_complete (i : nat) (exit_status : Z)
  | Op_stop_failstart (i : nat)
  | Op_add_service (svc : Service)             (* a new configuration is loaded *)
  | Op_absorb_previous (self prev_service : nat).

Definition run_op (render : string -> CommandContext -> option string)
    (op : Op) : M unit :=
  match op with
  | Op_Service_start s => Service_start render s
  | Op_Service_stop s => Service_stop render s
  | Op_fire k =>
      r <- gets reactor ;;
      d <- from_option DanglingReference (r !! k) ;;
      fire render (call d)
  | Op_start_complete i e => _start_complete_callback render i e
  | Op_start_failstart i => _start_complete_failstart i
  | Op_monitor_complete i e => _monitor_complete_callback i e
  | Op_monitor_failstart i => _monitor_complete_failstart i
  | Op_stop_complete i e => _stop_complete_callback i e
  | Op_stop_failstart i => _stop_complete_failstart i
  | Op_add_service svc =>
      modify (fun w => set_service_heap w (service_heap w ++ [svc]))
  | Op_absorb_previous self prev => absorb_previous render 16 self prev
  end.

Definition run_ops (render : string -> CommandContext -> option string)
    (ops : list Op) : M unit :=
  for_each ops (run_op render).

(** [n] instances started, monitored once and found alive: the service
    and its instances are [up]. *)
Definition bring_up_2 : list Op :=
  [Op_Service_start 0; Op_start_complete 0 0; Op_start_complete 1 0;
   Op_fire 0; Op_fire 1; Op_monitor_complete 0 0; Op_monitor_complete 1 0].

Definition world_up_2 : World := snd (run_ops render_literal bring_up_2 (boot 2)).

(** One instance, started, monitored once and found alive. *)
Definition bring_up_1 : list Op :=
  [Op_Service_start 0; Op_start_complete 0 0; Op_fire 0; Op_monitor_complete 0 0].

Definition world_up_1 : World := snd (run_ops render_literal bring_up_1 (boot 1)).

(** The next monitor cycle of that instance found the process gone: the
    world as [_instance_change] finds it, the instance already moved from
    [monitoring] to [failed] by the [down] event. *)
Definition world_monitor_failed : World :=
  let w := snd (run_op render_literal (Op_fire 1) world_up_1) in
  set_instance_heap w
    (alter (fun x => with_machine x
                       (set_state (machine x) ServiceInstanceState.STATE_FAILED))
       0%nat (instance_heap w)).

(** Scenario B in full: the monitor of the only instance reports a dead
    process; the service ends [failed] with a restart timer pending. *)
Definition world_all_failed : World :=
  snd (run_ops render_literal
         (bring_up_1 ++ [Op_fire 1; Op_monitor_complete 0 1]) (boot 1)).

(** Two instances up, then the monitor of the second reports a dead
    process: the service is [degraded] with a restart timer pending. *)
Definition world_degraded : World :=
  snd (run_ops render_literal
         (bring_up_2 ++ [Op_fire 3; Op_monitor_complete 1 1]) (boot 2)).

(** The running service of two instances is reconfigured to one instance:
    a new service definition with the same command, scheduler and pool
    absorbs the previous one. *)
Definition reconfigure_fewer : list Op :=
  bring_up_2 ++ [Op_add_service (web "serve" 1); Op_absorb_previous 1 0].

Definition world_fewer : World := snd (run_ops render_literal reconfigure_fewer (boot 2)).

(** A [next_run] for the examples: the job creates a scheduled run, due
    at [due], and records it at the head of its history. *)
Definition next_run_at (due : Z) (st : Mcp.JobStore) (job : nat)
    : option nat * Mcp.JobStore :=
  match Mcp.job_heap st !! job with
  | None => (None, st)
  | Some j =>
      let r := length (Mcp.run_heap st) in
      (Some r,
       Mcp.mkJobStore
         (<[job := Mcp.mkJob (Mcp.job_name j) (Mcp.enabled j) (r :: Mcp.runs j)]>
            (Mcp.job_heap st))
         (Mcp.run_heap st ++ [Mcp.mkRun (Mcp.job_name j) due true]))
  end.

Definition one_job : Mcp.State :=
  Mcp.mkState (Mcp.mkJobStore [Mcp.mkJob "nightly" true []] []) [].

(** A state handler whose previous writer, process 4242, is running. *)
Definition handler_writing : Mcp.StateHandler :=
  Mcp.mkStateHandler "/var/lib/tron" (Some 4242) true.

(** The running service of two instances gets a new command: the new
    definition absorbs the previous one. *)
Definition reconfigure_command : list Op :=
  bring_up_2 ++ [Op_add_service (web "serve --v2" 2)].

Definition world_new_command : World :=
  snd (run_ops render_literal reconfigure_command (boot 2)).

(** The only instance is started and its first monitor cycle is under
    way when the service is stopped. *)
Definition stop_while_monitoring : list Op :=
  [Op_Service_start 0; Op_start_complete 0 0; Op_fire 0; Op_Service_stop 0].

(** The service is stopped while its instance is still starting. *)
Definition stop_while_starting : list Op :=
  [Op_Service_start 0; Op_Service_stop 0].

(** ** The numbers of the rosters, as an invariant *)

(** Every roster holds existing instances whose numbers are pairwise
    distinct. *)
Definition distinct_numbers (w : World) : Prop :=
  forall s svc,
    service_heap w !! s = Some svc ->
    valid_refs w (instances svc) /\ NoDup (numbers w (instances svc)).

(** How the configuration code, which is not under [src/], uses the two
    operations that hand a roster to a service: a new definition is
    loaded without instances, and [absorb_previous] is called on a
    definition that has none yet. *)
Definition admissible (w : World) (op : Op) : Prop :=
  match op with
  | Op_add_service svc => instances svc = []
  | Op_absorb_previous self _ =>
      forall svc, service_heap w !! self = Some svc -> instances svc = []
  | _ => True
  end.

(** The event loop goes on after an operation that raised: each
    operation runs in the world the previous one left, however it
    ended. *)
Fixpoint run_all (render : string -> CommandContext -> option string)
    (ops : list Op) (w : World) : World :=
  match ops with
  | [] => w
  | op :: ops' => run_all render ops' (snd (run_op render op w))
  end.

(** Every operation of the run is admissible where it runs. *)
Fixpoint admissible_run (render : string -> CommandContext -> option string)
    (ops : list Op) (w : World) : Prop :=
  match ops with
  | [] => True
  | op :: ops' =>
      admissible w op /\ admissible_run render ops' (snd (run_op render op w))
  end.

(** The rosters have distinct numbers and service [s] has no instance. *)
Definition fresh_roster (s : nat) (w : World) : Prop :=
  distinct_numbers w
  /\ forall svc, service_heap w !! s = Some svc -> instances svc = [].

(** The timer [_queue_monitor] arms for a service: one, when the
    monitor interval is set and positive. *)
Definition requeue (svc : Service) : list Z :=
  match monitor_interval svc with
  | Some interval => if 0 <? interval then [interval] else []
  | None => []
  end.

(** The kill of [stop_while_monitoring] completes before the monitor
    action does, and the monitor timer it queued fires. *)
Definition monitor_after_kill : list Op :=
  stop_while_monitoring ++ [Op_stop_complete 0 0; Op_fire 1].

(** A service whose command refers to a variable the context lacks. *)
Definition web_broken (p : nat) : Service :=
  mkService "web" (Some "serve %(nope)s") None (Some p) 1 (Some 30) (Some 60) None
    (Some (mkStateMachine ServiceState.STATE_DOWN [])) (Some "/var/run/web.pid") [].

Definition pool_b : NodePool := mkNodePool [mkNode "b"] 0.

(** That service is restored as [degraded] with its instance on node
    [a]; the configuration is reloaded with a pool that has lost [a], so
    that the instance is stopped; its monitor finds the process gone and
    the roster is empty, the service still [degraded]. *)
Definition world_degraded_broken : World :=
  snd (run_ops render_literal
         [Op_add_service (web_broken 1); Op_absorb_previous 1 0; Op_monitor_complete 0 1]
         (snd (restore render_literal 0
                 (mkServiceData "degraded" [mkInstanceData "a" 0 "up"])
                 (mkWorld [] [web_broken 0] [pool_ab; pool_b] [] [] [])))).

(** * Properties *)

(** ** Reasoning about computations *)

Lemma preserves_ret {A} I (a : A) : preserves I (ret a).
Proof. intros w H; exact H. Qed.

Lemma preserves_raise {A} I e : preserves I (@raise A e).
Proof. intros w H; exact H. Qed.

Lemma preserves_bind {A B} I (m : M A) (k : A -> M B) :
  preserves I m -> (forall a, preserves I (k a)) -> preserves I (bind m k).
Proof.
  intros Hm Hk w H. unfold bind. specialize (Hm w H).
  destruct (m w) as [[a| e|] w']; simpl in *; auto. apply Hk, Hm.
Qed.

Lemma preserves_gets {A} I (f : World -> A) : preserves I (gets f).
Proof. intros w H; exact H. Qed.

Lemma preserves_from_option {A} I e (o : option A) : preserves I (from_option e o).
Proof. destruct o; [apply preserves_ret | apply preserves_raise]. Qed.

Lemma preserves_modify I (f : World -> World) :
  (forall w, I w -> I (f w)) -> preserves I (modify f).
Proof. intros Hf w H; apply Hf, H. Qed.

Lemma preserves_for_each {A} I (l : list A) (body : A -> M unit) :
  (forall a, preserves I (body a)) -> preserves I (for_each l body).
Proof.
  intros Hb. induction l as [|a l IH]; simpl.
  - apply preserves_ret.
  - apply preserves_bind; auto.
Qed.

Lemma preserves_for_each_with {A S} I (l : list A) (body : A -> S -> M S) s :
  (forall a s, preserves I (body a s)) -> preserves I (for_each_with l body s).
Proof.
  intros Hb. revert s. induction l as [|a l IH]; intros s; simpl.
  - apply preserves_ret.
  - apply preserves_bind; auto.
Qed.

Lemma preserves_map_M {A B} I (f : A -> M B) (l : list A) :
  (forall a, preserves I (f a)) -> preserves I (map_M f l).
Proof.
  intros Hf. induction l as [|a l IH]; simpl.
  - apply preserves_ret.
  - apply preserves_bind; auto. intros b.
    apply preserves_bind; auto. intros bs. apply preserves_ret.
Qed.

Lemma preserves_get_instance I i : preserves I (get_instance i).
Proof.
  apply preserves_bind; [apply preserves_gets | intros; apply preserves_from_option].
Qed.

Lemma preserves_get_service I s : preserves I (get_service s).
Proof.
  apply preserves_bind; [apply preserves_gets | intros; apply preserves_from_option].
Qed.

Lemma preserves_get_pool I p : preserves I (get_pool p).
Proof.
  apply preserves_bind; [apply preserves_gets | intros; apply preserves_from_option].
Qed.

Create HintDb preserve.

#[export] Hint Resolve preserves_ret preserves_raise preserves_gets
  preserves_from_option preserves_get_instance preserves_get_service
  preserves_get_pool : preserve.

(** Structural steps of a preservation proof: binds, loops, branches. *)
Ltac preserve_step :=
  first
    [ solve [eauto with preserve]
    | apply preserves_bind; [| intros ?]
    | apply preserves_for_each; intros ?
    | apply preserves_for_each_with; intros ? ?
    | apply preserves_map_M; intros ?
    | match goal with
      | |- preserves _ (match ?x with _ => _ end) => destruct x
      | |- preserves _ (if ?b then _ else _) => destruct b
      end ].

Ltac preserve := repeat preserve_step.

(** ** Frames *)

Lemma update_service_keeps_instances h r s f :
  preserves (instances_and_runs_are h r) (update_service s f).
Proof.
  unfold update_service. preserve.
  apply preserves_modify. intros w [H1 H2]; split; assumption.
Qed.

Lemma log_msg_keeps_instances h r l msg :
  preserves (instances_and_runs_are h r) (log_msg l msg).
Proof. apply preserves_modify. intros w [H1 H2]; split; assumption. Qed.

Lemma callLater_keeps_instances h r d cb :
  preserves (instances_and_runs_are h r) (callLater d cb).
Proof.
  unfold callLater. preserve.
  apply preserves_modify. intros w [H1 H2]; split; assumption.
Qed.

#[export] Hint Resolve update_service_keeps_instances log_msg_keeps_instances
  callLater_keeps_instances : preserve.

Lemma Service_transition_keeps_instances h r s ev :
  preserves (instances_and_runs_are h r) (Service_transition s ev).
Proof. unfold Service_transition. preserve. Qed.

#[export] Hint Resolve Service_transition_keeps_instances : preserve.

Lemma _instance_change_keeps_instances h r s :
  preserves (instances_and_runs_are h r) (_instance_change s).
Proof.
  unfold _instance_change, with_states, ServiceInstance_state. preserve.
Qed.

Lemma notify_keeps_instances h r cb :
  preserves (instances_and_runs_are h r) (notify cb).
Proof.
  destruct cb; simpl; auto with preserve. apply _instance_change_keeps_instances.
Qed.

(** Running a bind whose first computation is known. *)
Lemma bind_ret_run {A B} (m : M A) (k : A -> M B) w a w' :
  m w = (Ret a, w') -> bind m k w = k a w'.
Proof. intros H. unfold bind. rewrite H. reflexivity. Qed.

Lemma bind_assoc {A B C} (m : M A) (k : A -> M B) (k' : B -> M C) w :
  bind (bind m k) k' w = bind m (fun a => bind (k a) k') w.
Proof. unfold bind. destruct (m w) as [[a|e|] w']; reflexivity. Qed.

Lemma get_instance_run w i x :
  instance_heap w !! i = Some x -> get_instance i w = (Ret x, w).
Proof. intros H. unfold get_instance, bind, gets, from_option. rewrite H. reflexivity. Qed.

Lemma get_service_run w s x :
  service_heap w !! s = Some x -> get_service s w = (Ret x, w).
Proof. intros H. unfold get_service, bind, gets, from_option. rewrite H. reflexivity. Qed.

Lemma update_instance_run w i x f :
  instance_heap w !! i = Some x ->
  update_instance i f w
  = (Ret tt, set_instance_heap w (<[i := f x]> (instance_heap w))).
Proof.
  intros H. unfold update_instance.
  rewrite (bind_ret_run _ _ _ _ _ (get_instance_run _ _ _ H)). reflexivity.
Qed.

Lemma update_service_run w s x f :
  service_heap w !! s = Some x ->
  update_service s f w
  = (Ret tt, set_service_heap w (<[s := f x]> (service_heap w))).
Proof.
  intros H. unfold update_service.
  rewrite (bind_ret_run _ _ _ _ _ (get_service_run _ _ _ H)). reflexivity.
Qed.

(** A listed event sets the state of the instance and runs the
    listeners, which touch neither the instance heap nor the dispatched
    actions; an unlisted event does nothing at all. *)
Lemma ServiceInstance_transition_listed w i x ev target :
  instance_heap w !! i = Some x ->
  instance_next (state (machine x)) ev = Some target ->
  exists o w2,
    ServiceInstance_transition i ev w = (o, w2)
    /\ instance_heap w2
       = <[i := with_machine x (set_state (machine x) target)]> (instance_heap w)
    /\ node_runs w2 = node_runs w.
Proof.
  intros Hx Hev. unfold ServiceInstance_transition.
  rewrite (bind_ret_run _ _ _ _ _ (get_instance_run _ _ _ Hx)), Hev.
  rewrite (bind_ret_run _ _ _ _ _ (update_instance_run _ _ _ _ Hx)).
  match goal with |- context [for_each ?l notify ?w1] =>
    pose proof (preserves_for_each _ l notify
                  (notify_keeps_instances (instance_heap w1) (node_runs w1)) w1
                  (conj eq_refl eq_refl)) as [Hh Hr];
    destruct (for_each l notify w1) as [o w2]
  end.
  exists o, w2. simpl in Hh, Hr. auto.
Qed.

Lemma ServiceInstance_transition_unlisted w i x ev :
  instance_heap w !! i = Some x ->
  instance_next (state (machine x)) ev = None ->
  ServiceInstance_transition i ev w = (Ret tt, w).
Proof.
  intros Hx Hev. unfold ServiceInstance_transition.
  rewrite (bind_ret_run _ _ _ _ _ (get_instance_run _ _ _ Hx)), Hev. reflexivity.
Qed.

Lemma ServiceInstance_state_run w i x :
  instance_heap w !! i = Some x ->
  ServiceInstance_state i w = (Ret (state (machine x)), w).
Proof.
  intros Hx. unfold ServiceInstance_state.
  rewrite (bind_ret_run _ _ _ _ _ (get_instance_run _ _ _ Hx)). reflexivity.
Qed.

(** ** C3: the [stop] event in state [failed] *)

(** C3, as stated, fails: in the transition map of [failed] the [stop]
    event leads to [down], not to [stopping]. *)
Lemma failed_stop_is_not_stopping :
  instance_next ServiceInstanceState.STATE_FAILED "stop"
  <> Some ServiceInstanceState.STATE_STOPPING.
Proof. vm_compute. discriminate. Qed.

(** C3 (amended): for an instance whose state is [failed], [stop()] moves
    the machine to [down] and dispatches nothing: no kill command is run,
    since the machine did not land in [stopping]. *)
Theorem failed_stop_goes_down :
  forall render (w : World) (i : nat) (x : ServiceInstance),
    instance_heap w !! i = Some x ->
    state (machine x) = ServiceInstanceState.STATE_FAILED ->
    forall w', w' = snd (ServiceInstance_stop render i w) ->
    instance_next (state (machine x)) "stop" = Some ServiceInstanceState.STATE_DOWN
    /\ (state ∘ machine) <$> (instance_heap w' !! i)
       = Some ServiceInstanceState.STATE_DOWN
    /\ node_runs w' = node_runs w.
Proof.
  intros render w i x Hx Hst w' ->.
  assert (Hev : instance_next (state (machine x)) "stop"
                = Some ServiceInstanceState.STATE_DOWN) by (rewrite Hst; reflexivity).
  split; [exact Hev|].
  destruct (ServiceInstance_transition_listed _ _ _ _ _ Hx Hev)
    as (o & w2 & Hrun & Hh & Hr).
  assert (Hlt : (i < length (instance_heap w))%nat) by (eapply lookup_lt_Some; eauto).
  assert (Hx2 : instance_heap w2 !! i
                = Some (with_machine x
                          (set_state (machine x) ServiceInstanceState.STATE_DOWN)))
    by (rewrite Hh; apply list_lookup_insert_eq; assumption).
  assert (Hfin : snd (ServiceInstance_stop render i w) = w2).
  { unfold ServiceInstance_stop, bind at 1. rewrite Hrun.
    destruct o as [[]|e|]; simpl; try reflexivity.
    rewrite (bind_ret_run _ _ _ _ _ (ServiceInstance_state_run _ _ _ Hx2)).
    reflexivity. }
  rewrite Hfin, Hx2. auto.
Qed.

(** A failed instance of the running example is stopped. *)
Lemma failed_stop_goes_down_witness :
  let w := snd (run_ops render_literal
                  [Op_Service_start 0; Op_start_complete 0 1] (boot 1)) in
  (state ∘ machine) <$> (instance_heap w !! 0%nat)
  = Some ServiceInstanceState.STATE_FAILED
  /\ (state ∘ machine) <$>
       (instance_heap (snd (ServiceInstance_stop render_literal 0 w)) !! 0%nat)
     = Some ServiceInstanceState.STATE_DOWN.
Proof.
  intros w. split; [reflexivity|].
  destruct (instance_heap w !! 0%nat) as [x|] eqn:Hx; [|discriminate].
  refine (proj1 (proj2 (failed_stop_goes_down render_literal w 0%nat x Hx _ _ eq_refl))).
  vm_compute in Hx. injection Hx as <-. reflexivity.
Defined.

(** ** C5: the aggregate handler *)

Lemma with_states_run w l :
  valid_refs w l -> with_states l w = (Ret (instance_states w l), w).
Proof.
  unfold with_states, instance_states, state_at.
  induction 1 as [|i l [x Hx] Hl IH]; simpl; [reflexivity|].
  rewrite bind_assoc, (bind_ret_run _ _ _ _ _ (ServiceInstance_state_run _ _ _ Hx)).
  unfold ret at 1. unfold bind at 1. unfold bind at 1. rewrite IH.
  rewrite Hx. reflexivity.
Qed.

Lemma set_state_same {St} (m : StateMachine St) : set_state m (state m) = m.
Proof. destruct m; reflexivity. Qed.

Lemma set_service_lookup w s svc x :
  service_heap w !! s = Some svc ->
  service_heap (set_service w s x) !! s = Some x.
Proof.
  intros H. simpl. apply list_lookup_insert_eq. eapply lookup_lt_Some; eauto.
Qed.

Lemma set_service_twice w s x y :
  set_service (set_service w s x) s y = set_service w s y.
Proof. unfold set_service, set_service_heap. simpl. rewrite list_insert_insert_eq. reflexivity. Qed.

Lemma set_service_same w s svc :
  service_heap w !! s = Some svc -> set_service w s svc = w.
Proof.
  intros H. unfold set_service, set_service_heap.
  rewrite list_insert_id by exact H. destruct w; reflexivity.
Qed.

Lemma Service_transition_run w s svc m ev :
  service_heap w !! s = Some svc ->
  service_machine svc = Some m ->
  Service_transition s ev w
  = (Ret tt,
     set_service w s
       (with_service_machine svc (Some (set_state m (fire_event (state m) ev))))).
Proof.
  intros Hs Hm. unfold Service_transition, fire_event.
  rewrite (bind_ret_run _ _ _ _ _ (get_service_run _ _ _ Hs)), Hm. simpl.
  unfold bind at 1. simpl.
  destruct (service_next (state m) ev) as [t|]; simpl.
  - rewrite (update_service_run _ _ _ _ Hs). reflexivity.
  - rewrite set_state_same. unfold ret. f_equal. symmetry.
    apply set_service_same. rewrite Hs. f_equal.
    destruct svc; simpl in *; subst; reflexivity.
Qed.

(** The last step of the handler: arming the restart timer. *)
Lemma restart_timer_step w s svc m :
  service_heap w !! s = Some svc ->
  service_machine svc = Some m ->
  (svc' <- get_service s ;;
   m' <- from_option AttributeError (service_machine svc') ;;
   if in_failure_state (state m') then
     match restart_interval svc', _restart_timer svc' with
     | Some interval, None =>
         t <- callLater interval (CB_restart_after_failure s) ;;
         update_service s (fun x => with_restart_timer x (Some t))
     | _, _ => ret tt
     end
   else ret tt) w
  = (Ret tt,
     match arms_restart svc (state m) with
     | Some interval =>
         set_service
           (set_reactor w
              (reactor w ++ [mkDelayedCall interval (CB_restart_after_failure s)]))
           s (with_restart_timer svc (Some (length (reactor w))))
     | None => w
     end).
Proof.
  intros Hs Hm.
  rewrite (bind_ret_run _ _ _ _ _ (get_service_run _ _ _ Hs)), Hm.
  unfold arms_restart. simpl. unfold bind at 1. simpl.
  destruct (in_failure_state (state m)); [|reflexivity].
  destruct (restart_interval svc) as [d|]; [|reflexivity].
  destruct (_restart_timer svc) as [t|]; [reflexivity|].
  unfold callLater, bind, gets, modify, ret. simpl.
  change (service_heap w !! s) with
    (service_heap (set_reactor w (reactor w ++ [mkDelayedCall d (CB_restart_after_failure s)])) !! s) in Hs.
  rewrite (update_service_run _ _ _ _ Hs). reflexivity.
Qed.

(** Both sides are now explicit worlds: compare them field by field. *)
Ltac finish_change w :=
  simpl; unfold arms_restart; simpl;
  repeat match goal with
         | |- context [match ?x with _ => _ end] => destruct x
         end;
  unfold set_service, set_service_heap, set_reactor, set_log; simpl;
  rewrite ?app_nil_r, ?list_insert_insert_eq; destruct w; reflexivity.

(** The handler computes what its description says. *)
Lemma _instance_change_run (w : World) (s : nat) (svc : Service)
    (m : StateMachine SState) :
  service_heap w !! s = Some svc ->
  service_machine svc = Some m ->
  valid_refs w (instances svc) ->
  _instance_change s w = (Ret tt, instance_change_spec s svc m w).
Proof.
  intros Hs Hm Hv.
  set (live := not_down w (instances svc)).
  set (st := fire_events (state m) (aggregate_events (count svc) live)).
  set (w' := instance_change_spec s svc m w).
  assert (Hlt : (s < length (service_heap w))%nat) by (eapply lookup_lt_Some; eauto).
  unfold _instance_change.
  rewrite (bind_ret_run _ _ _ _ _ (get_service_run _ _ _ Hs)).
  rewrite (bind_ret_run _ _ _ _ _ (with_states_run _ _ Hv)).
  fold (not_down w (instances svc)). fold live. cbv zeta.
  rewrite (bind_ret_run _ _ _ _ _ (update_service_run _ _ _ _ Hs)).
  fold (set_service w s (with_instances svc (map fst live))).
  set (svc1 := with_instances svc (map fst live)).
  set (w1 := set_service w s svc1).
  assert (Hs1 : service_heap w1 !! s = Some svc1)
    by (eapply set_service_lookup; eauto).
  assert (Hm1 : service_machine svc1 = Some m) by exact Hm.
  subst w'. unfold instance_change_spec. fold live. fold svc1.
  unfold st, aggregate_events.
  destruct live as [|p live'] eqn:Hlive; simpl length; cbv iota beta.
  + simpl Nat.eqb. cbv iota.
    rewrite (bind_ret_run _ _ _ _ _ (Service_transition_run _ _ _ _ _ Hs1 Hm1)).
    unfold w1. rewrite set_service_twice.
    erewrite restart_timer_step;
      [| eapply set_service_lookup; eauto | reflexivity].
    finish_change w.
  + change (Nat.eqb (S (length live')) 0) with false. cbv iota.
    destruct (existsb _ (p :: live')).
    * rewrite bind_assoc.
      rewrite (bind_ret_run _ _ _ _ _ (Service_transition_run _ _ _ _ _ Hs1 Hm1)).
      unfold w1. rewrite set_service_twice.
      destruct (forallb _ (p :: live')).
      -- match goal with |- context [set_service w s ?x] =>
           assert (Hs2 : service_heap (set_service w s x) !! s = Some x)
             by (eapply set_service_lookup; eauto)
         end.
         rewrite (bind_ret_run _ _ _ _ _
                    (Service_transition_run _ _ _ _ "all_failed" Hs2 eq_refl)).
         rewrite set_service_twice.
         erewrite restart_timer_step;
           [| eapply set_service_lookup; eauto | reflexivity].
         finish_change w.
      -- unfold ret at 1. unfold bind at 1.
         erewrite restart_timer_step;
           [| eapply set_service_lookup; eauto | reflexivity].
         finish_change w.
    * destruct (Z.of_nat (S (length live')) <? count svc).
      -- rewrite bind_assoc. unfold log_msg at 1, modify at 1, bind at 1.
         set (w2 := set_log w1 _).
         assert (Hs2 : service_heap w2 !! s = Some svc1) by exact Hs1.
         rewrite (bind_ret_run _ _ _ _ _
                    (Service_transition_run w2 _ _ _ "down" Hs2 Hm1)).
         subst w2.
         erewrite restart_timer_step;
           [| eapply set_service_lookup; simpl; eauto | reflexivity].
         finish_change w.
      -- destruct (forallb _ (p :: live')).
         ++ rewrite (bind_ret_run _ _ _ _ _ (Service_transition_run _ _ _ _ _ Hs1 Hm1)).
            unfold w1. rewrite set_service_twice.
            erewrite restart_timer_step;
              [| eapply set_service_lookup; eauto | reflexivity].
            finish_change w.
         ++ unfold ret at 1. unfold bind at 1.
            erewrite restart_timer_step; [| exact Hs1 | exact Hm1].
            simpl fire_events. rewrite set_state_same.
            replace (with_service_machine svc1 (Some m)) with svc1
              by (subst svc1; destruct svc; simpl in *; subst; reflexivity).
            finish_change w.
Qed.

(** C5: on every instance state change [_instance_change] drops the
    instances in [down], then fires on the service machine the events
    chosen by priority (nothing left: [all_down]; some instance failed:
    [failed], and [all_failed] too when all are; else fewer instances than
    [count]: [down]; else all [up]: [all_up]), and, when the machine ends
    [degraded] or [failed] with a restart interval configured, arms one
    restart timer unless one is pending. *)
Theorem _instance_change_refines :
  forall (w : World) (s : nat) (svc : Service) (m : StateMachine SState),
    service_heap w !! s = Some svc ->
    service_machine svc = Some m ->
    valid_refs w (instances svc) ->
    let live := not_down w (instances svc) in
    let st := fire_events (state m) (aggregate_events (count svc) live) in
    let w' := instance_change_spec s svc m w in
    _instance_change s w = (Ret tt, w')
    /\ (exists svc',
          service_heap w' !! s = Some svc'
          /\ instances svc' = map fst live
          /\ (state <$> service_machine svc') = Some st
          /\ (in_failure_state st = true -> is_Some (restart_interval svc) ->
              is_Some (_restart_timer svc')))
    /\ (exists armed,
          reactor w' = reactor w ++ armed
          /\ (length armed <= 1)%nat
          /\ (is_Some (_restart_timer svc) -> armed = [])
          /\ (in_failure_state st = true -> is_Some (restart_interval svc) ->
              _restart_timer svc = None -> length armed = 1%nat)).
Proof.
  intros w s svc m Hs Hm Hv live st w'.
  assert (Hlt : (s < length (service_heap w))%nat) by (eapply lookup_lt_Some; eauto).
  split; [|split].
  - apply _instance_change_run; assumption.
  - subst w'. unfold instance_change_spec. fold live. fold st.
    destruct (arms_restart svc st) as [d|] eqn:Harm.
    + eexists. split; [eapply set_service_lookup; simpl;
                       apply list_lookup_insert_eq; exact Hlt|].
      simpl. repeat split; eauto.
    + eexists. split; [eapply set_service_lookup; simpl; exact Hs|].
      simpl. repeat split; auto.
      intros Hf [d Hd]. unfold arms_restart in Harm. rewrite Hf, Hd in Harm.
      destruct (_restart_timer svc); [eauto | discriminate].
  - subst w'. unfold instance_change_spec. fold live. fold st.
    unfold arms_restart.
    destruct (in_failure_state st) eqn:Hf;
      [destruct (restart_interval svc) as [d|] eqn:Hd;
       [destruct (_restart_timer svc) as [t|] eqn:Ht|]|].
    + exists []. simpl. rewrite app_nil_r.
      repeat split; auto. discriminate.
    + eexists [_]. simpl. repeat split; auto. intros [? ?]; discriminate.
    + exists []. simpl. rewrite app_nil_r.
      repeat split; auto. intros _ [? ?]; discriminate.
    + exists []. simpl. rewrite app_nil_r.
      repeat split; auto. discriminate.
Qed.

(** One instance of one has failed: [failed] then [all_failed] take the
    service from [up] to [failed], and one restart timer is armed. *)
Lemma _instance_change_refines_witness :
  let w' := snd (_instance_change 0 world_monitor_failed) in
  (state <$> (service_heap w' !! 0%nat ≫= service_machine))
  = Some ServiceState.STATE_FAILED
  /\ length (reactor w') = S (length (reactor world_monitor_failed)).
Proof.
  destruct (service_heap world_monitor_failed !! 0%nat) as [svc|] eqn:Hs;
    [|vm_compute in Hs; discriminate].
  destruct (service_machine svc) as [m|] eqn:Hm;
    [|vm_compute in Hs; injection Hs as <-; discriminate].
  assert (Hv : valid_refs world_monitor_failed (instances svc)).
  { vm_compute in Hs. injection Hs as <-.
    repeat constructor. eexists. vm_compute. reflexivity. }
  destruct (_instance_change_refines _ _ _ _ Hs Hm Hv) as (Hrun & _ & _).
  cbv zeta. rewrite Hrun.
  vm_compute in Hs. injection Hs as <-. vm_compute in Hm. injection Hm as <-.
  vm_compute. split; reflexivity.
Defined.

(** ** C6: instance numbers *)

Lemma with_numbers_run w l :
  valid_refs w l -> with_numbers l w = (Ret (keyed w l), w).
Proof.
  unfold with_numbers, keyed, number_of.
  induction 1 as [|i l [x Hx] Hl IH]; simpl; [reflexivity|].
  rewrite bind_assoc, (bind_ret_run _ _ _ _ _ (get_instance_run _ _ _ Hx)).
  unfold ret at 1. unfold bind at 1. unfold bind at 1. rewrite IH.
  rewrite Hx. reflexivity.
Qed.

Lemma keyed_numbers w l : map snd (keyed w l) = numbers w l.
Proof. unfold keyed, numbers. rewrite map_map. reflexivity. Qed.

Lemma keyed_refs w l : map fst (keyed w l) = l.
Proof. unfold keyed. rewrite map_map. apply map_id. Qed.

Lemma range_spec lo hi k : In k (range lo hi) <-> lo <= k < hi.
Proof.
  unfold range. rewrite in_map_iff. split.
  - intros (j & <- & Hj). apply in_seq in Hj. lia.
  - intros H. exists (Z.to_nat (k - lo)). split; [lia|]. apply in_seq. lia.
Qed.

Lemma range_sorted lo hi : Sorted.StronglySorted Z.lt (range lo hi).
Proof.
  unfold range. generalize (Z.to_nat (hi - lo)) as len. intros len.
  generalize 0%nat as b. induction len as [|len IH]; intros b; simpl.
  - constructor.
  - constructor; [apply IH|].
    apply List.Forall_forall. intros k Hk. apply in_map_iff in Hk as (j & <- & Hj).
    apply in_seq in Hj. lia.
Qed.

Lemma filter_strongly_sorted (f : Z -> bool) l :
  Sorted.StronglySorted Z.lt l -> Sorted.StronglySorted Z.lt (List.filter f l).
Proof.
  induction 1 as [|a l Hl IH Ha]; simpl; [constructor|].
  destruct (f a); [|exact IH]. constructor; [exact IH|].
  apply List.Forall_forall. intros k Hk. apply filter_In in Hk as [Hk _].
  rewrite List.Forall_forall in Ha. auto.
Qed.

Lemma minimum_head k rest :
  Sorted.StronglySorted Z.lt (k :: rest) -> minimum k rest = k.
Proof.
  intros H. apply Sorted.StronglySorted_inv in H as [_ H].
  unfold minimum. induction rest as [|a rest IH]; simpl; [reflexivity|].
  apply Forall_cons in H as [Ha H]. rewrite (IH H). lia.
Qed.

Lemma existsb_eqb_In k used : existsb (Z.eqb k) used = true <-> In k used.
Proof.
  rewrite existsb_exists. split.
  - intros (x & Hx & He). apply Z.eqb_eq in He. subst. assumption.
  - intros H. exists k. split; [assumption | apply Z.eqb_refl].
Qed.

(** [_find_unused_instance_number] answers the lowest number of
    [[0, count)] that no instance of the roster holds, and [None] exactly
    when all of them are held. *)
Lemma lowest_unused_Some n used k :
  lowest_unused n used = Some k <->
  (0 <= k < n /\ ~ In k used /\ forall j, 0 <= j < k -> In j used).
Proof.
  unfold lowest_unused.
  pose proof (filter_strongly_sorted (fun k => negb (existsb (Z.eqb k) used)) _
                (range_sorted 0 n)) as Hsorted.
  destruct (List.filter _ (range 0 n)) as [|a rest] eqn:Hf.
  - split; [discriminate|]. intros (Hk & Hn & _). exfalso.
    assert (Hin : In k (List.filter (fun k => negb (existsb (Z.eqb k) used)) (range 0 n))).
    { apply filter_In. split; [apply range_spec; lia|].
      apply negb_true_iff. apply not_true_is_false. rewrite existsb_eqb_In. exact Hn. }
    rewrite Hf in Hin. destruct Hin.
  - rewrite (minimum_head _ _ Hsorted).
    assert (Ha : In a (List.filter (fun k => negb (existsb (Z.eqb k) used)) (range 0 n)))
      by (rewrite Hf; left; reflexivity).
    apply filter_In in Ha as [Har Hau]. apply range_spec in Har.
    apply negb_true_iff in Hau.
    assert (Hnot : ~ In a used) by (rewrite <- existsb_eqb_In, Hau; discriminate).
    assert (Hleast : forall j, 0 <= j < a -> In j used).
    { intros j Hj. destruct (in_dec Z.eq_dec j used) as [|Hnj]; [assumption|]. exfalso.
      assert (Hin : In j (a :: rest)).
      { rewrite <- Hf. apply filter_In. split; [apply range_spec; lia|].
        apply negb_true_iff. apply not_true_is_false. rewrite existsb_eqb_In. exact Hnj. }
      apply Sorted.StronglySorted_inv in Hsorted as [_ Hall].
      rewrite List.Forall_forall in Hall. destruct Hin as [->|Hin]; [lia|].
      specialize (Hall _ Hin). lia. }
    split.
    + intros [= <-]. auto.
    + intros (Hk & Hn & Hl). f_equal.
      destruct (Z.lt_trichotomy a k) as [Hlt|[->|Hgt]]; [|reflexivity|].
      * exfalso. apply Hnot, Hl. lia.
      * exfalso. apply Hn, Hleast. lia.
Qed.

Lemma lowest_unused_None n used :
  lowest_unused n used = None <-> (forall k, 0 <= k < n -> In k used).
Proof.
  split.
  - intros H k Hk. destruct (in_dec Z.eq_dec k used) as [|Hnk]; [assumption|].
    exfalso. unfold lowest_unused in H.
    assert (Hin : In k (List.filter (fun k => negb (existsb (Z.eqb k) used)) (range 0 n))).
    { apply filter_In. split; [apply range_spec; lia|].
      apply negb_true_iff. apply not_true_is_false. rewrite existsb_eqb_In. exact Hnk. }
    destruct (List.filter _ (range 0 n)); [destruct Hin | discriminate].
  - intros H. destruct (lowest_unused n used) as [k|] eqn:Hk; [|reflexivity].
    apply lowest_unused_Some in Hk as (Hr & Hn & _). exfalso. apply Hn, H, Hr.
Qed.

Lemma _find_unused_instance_number_run w s svc :
  service_heap w !! s = Some svc ->
  valid_refs w (instances svc) ->
  _find_unused_instance_number s w
  = (Ret (lowest_unused (count svc) (numbers w (instances svc))), w).
Proof.
  intros Hs Hv. unfold _find_unused_instance_number.
  rewrite (bind_ret_run _ _ _ _ _ (get_service_run _ _ _ Hs)).
  rewrite (bind_ret_run _ _ _ _ _ (with_numbers_run _ _ Hv)).
  rewrite keyed_numbers. unfold lowest_unused.
  destruct (List.filter _ (range 0 (count svc))); reflexivity.
Qed.

Lemma insert_by_key_perm x l : Permutation (insert_by_key x l) (x :: l).
Proof.
  induction l as [|y l IH]; simpl; [reflexivity|].
  destruct (snd x <? snd y); [reflexivity|].
  rewrite IH. apply perm_swap.
Qed.

Lemma sort_by_key_perm l : Permutation (sort_by_key l) l.
Proof.
  unfold sort_by_key.
  assert (H : forall acc, Permutation (fold_left (fun acc x => insert_by_key x acc) l acc)
                            (acc ++ l)).
  { induction l as [|x l IH]; intros acc; simpl.
    - rewrite app_nil_r. reflexivity.
    - rewrite IH, insert_by_key_perm. apply Permutation_middle. }
  apply (H []).
Qed.

Lemma next_round_robin_run w p pool :
  pool_heap w !! p = Some pool ->
  nodes pool <> [] ->
  exists n,
    next_round_robin p w
    = (Ret n,
       set_pool_heap w
         (<[p := mkNodePool (nodes pool) (S (next_index pool))]> (pool_heap w))).
Proof.
  intros Hp Hn. unfold next_round_robin, get_pool.
  destruct (nodes pool !! (next_index pool mod length (nodes pool))%nat) as [n|] eqn:Hl.
  - exists n. unfold bind, gets, from_option, ret, put_pool, modify. simpl.
    rewrite Hp. simpl. rewrite Hl. reflexivity.
  - exfalso. apply lookup_ge_None in Hl.
    assert (length (nodes pool) <> 0%nat) by (destruct (nodes pool); simpl; congruence).
    pose proof (Nat.mod_upper_bound (next_index pool) (length (nodes pool)) H). lia.
Qed.

Lemma valid_refs_lt w l :
  valid_refs w l <-> Forall (fun i => (i < length (instance_heap w))%nat) l.
Proof.
  unfold valid_refs. apply Forall_proper; [|reflexivity].
  intros i. apply lookup_lt_is_Some.
Qed.

Lemma number_of_app_l h x w i :
  (i < length h)%nat ->
  number_of (set_instance_heap w (h ++ [x])) i = number_of (set_instance_heap w h) i.
Proof. intros H. unfold number_of. simpl. rewrite lookup_app_l by exact H. reflexivity. Qed.

Lemma _create_instance_run w s svc n number :
  service_heap w !! s = Some svc ->
  valid_refs w (instances svc) ->
  let i := length (instance_heap w) in
  _create_instance s n number w
  = (Ret i,
     mkWorld (instance_heap w ++ [new_instance s svc n number])
       (<[s := with_instances svc
                 (map fst (sort_by_key (keyed w (instances svc) ++ [(i, number)])))]>
          (service_heap w))
       (pool_heap w) (reactor w) (node_runs w) (log w)).
Proof.
  intros Hs Hv i. unfold _create_instance.
  rewrite (bind_ret_run _ _ _ _ _ (get_service_run _ _ _ Hs)).
  unfold gets at 1. unfold bind at 1. unfold modify at 1. unfold bind at 1.
  set (x0 := mkServiceInstance _ _ _ _ _ _ _ _ _).
  set (w1 := set_instance_heap w (instance_heap w ++ [x0])).
  assert (Hs1 : service_heap w1 !! s = Some svc) by exact Hs.
  rewrite (bind_ret_run _ _ _ _ _ (update_service_run _ _ _ _ Hs1)).
  set (svc2 := with_instances svc (instances svc ++ [length (instance_heap w)])).
  set (w2 := set_service_heap w1 _).
  assert (Hs2 : service_heap w2 !! s = Some svc2).
  { apply list_lookup_insert_eq. eapply lookup_lt_Some; eauto. }
  assert (Hv2 : valid_refs w2 (instances svc2)).
  { apply valid_refs_lt. simpl. rewrite length_app. simpl.
    apply Forall_app. split.
    - apply valid_refs_lt in Hv. eapply Forall_impl; [exact Hv|]. simpl. lia.
    - repeat constructor. lia. }
  unfold sort_instances.
  rewrite bind_assoc, (bind_ret_run _ _ _ _ _ (get_service_run _ _ _ Hs2)).
  rewrite bind_assoc, (bind_ret_run _ _ _ _ _ (with_numbers_run _ _ Hv2)).
  rewrite (bind_ret_run _ _ _ _ _ (update_service_run _ _ _ _ Hs2)).
  set (w3 := set_service_heap w2 _).
  assert (Hx3 : instance_heap w3 !! length (instance_heap w) = Some x0)
    by (simpl; apply list_lookup_middle; reflexivity).
  rewrite (bind_ret_run _ _ _ _ _ (update_instance_run _ _ _ _ Hx3)).
  unfold ret. f_equal. unfold set_instance_heap, set_service_heap. simpl.
  f_equal.
  - rewrite insert_app_r_alt by lia. rewrite Nat.sub_diag. reflexivity.
  - rewrite list_insert_insert_eq. f_equal. unfold with_instances. simpl. f_equal.
    f_equal. f_equal. unfold keyed. rewrite map_app. simpl. f_equal.
    + apply map_ext_in. intros j Hj. f_equal. unfold number_of. simpl.
      apply valid_refs_lt in Hv. rewrite List.Forall_forall in Hv.
      rewrite lookup_app_l by (apply Hv; exact Hj). reflexivity.
    + unfold number_of. simpl. rewrite list_lookup_middle by reflexivity. reflexivity.
Qed.

(** *** What the handler leaves behind *)

Lemma instance_change_spec_frame s svc m w :
  instance_heap (instance_change_spec s svc m w) = instance_heap w
  /\ pool_heap (instance_change_spec s svc m w) = pool_heap w
  /\ node_runs (instance_change_spec s svc m w) = node_runs w.
Proof.
  unfold instance_change_spec. destruct (arms_restart _ _); simpl; auto.
Qed.

Lemma instance_change_spec_service s svc m w :
  service_heap w !! s = Some svc ->
  exists svc',
    service_heap (instance_change_spec s svc m w) !! s = Some svc'
    /\ instances svc' = map fst (not_down w (instances svc))
    /\ service_machine svc'
       = Some (set_state m
                 (fire_events (state m)
                    (aggregate_events (count svc) (not_down w (instances svc)))))
    /\ command svc' = command svc
    /\ node_pool svc' = node_pool svc
    /\ count svc' = count svc
    /\ name svc' = name svc
    /\ pid_file_template svc' = pid_file_template svc.
Proof.
  intros Hs.
  assert (Hlt : (s < length (service_heap w))%nat) by (eapply lookup_lt_Some; eauto).
  unfold instance_change_spec. destruct (arms_restart _ _); simpl.
  - eexists. split.
    + apply list_lookup_insert_eq. rewrite length_insert. exact Hlt.
    + simpl. repeat split; reflexivity.
  - eexists. split.
    + apply list_lookup_insert_eq. exact Hlt.
    + simpl. repeat split; reflexivity.
Qed.

Lemma instance_states_elem w l j st :
  (j, st) ∈ instance_states w l <-> j ∈ l /\ state_at w j = Some st.
Proof.
  unfold instance_states. rewrite list_elem_of_omap. split.
  - intros (k & Hk & Hst). destruct (state_at w k) as [st'|] eqn:E; simpl in Hst;
      [|discriminate]. injection Hst as -> ->. auto.
  - intros [Hj Hst]. exists j. rewrite Hst. auto.
Qed.

Lemma not_down_elem w l j st :
  (j, st) ∈ not_down w l <->
  j ∈ l /\ state_at w j = Some st /\ st <> ServiceInstanceState.STATE_DOWN.
Proof.
  unfold not_down. rewrite list_elem_of_In, filter_In, <- list_elem_of_In.
  rewrite instance_states_elem. unfold state_is. simpl.
  split.
  - intros [[Hj Hst] Hn]. repeat split; auto. intros ->. discriminate.
  - intros (Hj & Hst & Hn). repeat split; auto. destruct st; try reflexivity.
    congruence.
Qed.

Lemma filter_sublist {A} (f : A -> bool) (l : list A) : List.filter f l `sublist_of` l.
Proof.
  induction l as [|a l IH]; simpl; [constructor|].
  destruct (f a); [apply sublist_skip | apply sublist_cons]; exact IH.
Qed.

Lemma instance_states_refs w l : map fst (instance_states w l) `sublist_of` l.
Proof.
  unfold instance_states. induction l as [|j l IH]; simpl; [constructor|].
  destruct (state_at w j); simpl; [apply sublist_skip | apply sublist_cons]; exact IH.
Qed.

Lemma not_down_refs w l : map fst (not_down w l) `sublist_of` l.
Proof.
  etransitivity; [|apply instance_states_refs].
  unfold not_down. apply (fmap_sublist fst), filter_sublist.
Qed.

(** A transition of an instance whose only listener is its service. *)
Lemma ServiceInstance_transition_run w s svc m i x ev target :
  instance_heap w !! i = Some x ->
  listeners (machine x) = [CB_instance_change s] ->
  instance_next (state (machine x)) ev = Some target ->
  service_heap w !! s = Some svc ->
  service_machine svc = Some m ->
  valid_refs w (instances svc) ->
  ServiceInstance_transition i ev w
  = (Ret tt,
     instance_change_spec s svc m
       (set_instance_heap w
          (<[i := with_machine x (set_state (machine x) target)]> (instance_heap w)))).
Proof.
  intros Hx Hl Hev Hs Hm Hv. unfold ServiceInstance_transition.
  rewrite (bind_ret_run _ _ _ _ _ (get_instance_run _ _ _ Hx)), Hev.
  rewrite (bind_ret_run _ _ _ _ _ (update_instance_run _ _ _ _ Hx)).
  rewrite Hl. simpl. set (w1 := set_instance_heap w _).
  assert (Hv1 : valid_refs w1 (instances svc)).
  { apply valid_refs_lt. simpl. rewrite length_insert. apply valid_refs_lt, Hv. }
  rewrite (bind_ret_run _ _ _ _ _ (_instance_change_run w1 s svc m Hs Hm Hv1)).
  reflexivity.
Qed.

(** ** Building instances *)

Section Build.

Variable render : string -> CommandContext -> option string.
Variables (s : nat) (c : string) (p : nat) (n : Z).
Variable ok : IState -> bool.
Variable Sok : SState -> Prop.

Hypothesis ok_down : ok ServiceInstanceState.STATE_DOWN = true.
Hypothesis ok_starting : ok ServiceInstanceState.STATE_STARTING = true.
Hypothesis renders_or_ok :
  (forall ctx, is_Some (render c ctx)) \/ ok ServiceInstanceState.STATE_FAILED = true.
Hypothesis Sok_closed :
  forall st live,
    Sok st ->
    Forall (fun q => ok (snd q) = true) live ->
    (exists q, q ∈ live /\ (snd q = ServiceInstanceState.STATE_STARTING
                            \/ snd q = ServiceInstanceState.STATE_FAILED)) ->
    Sok (fire_events st (aggregate_events n live)).

Lemma roster_ok_valid w l : roster_ok ok w l -> valid_refs w l.
Proof.
  unfold roster_ok, valid_refs. intros H. eapply Forall_impl; [exact H|].
  intros j (x & Hx & _). eauto.
Qed.

(** The handler runs after instance [i] of the roster moved to [starting]
    or [failed]: the service still serves, with a roster cut down to the
    instances that are not down. *)
Lemma serving_after_change w svc m i x x' :
  serving s c p n ok Sok w svc ->
  service_machine svc = Some m ->
  instance_heap w !! i = Some x ->
  i ∈ instances svc ->
  ok (state (machine x')) = true ->
  (state (machine x') = ServiceInstanceState.STATE_STARTING
   \/ state (machine x') = ServiceInstanceState.STATE_FAILED) ->
  let w1 := set_instance_heap w (<[i := x']> (instance_heap w)) in
  exists svc2,
    serving s c p n ok Sok (instance_change_spec s svc m w1) svc2
    /\ instances svc2 `sublist_of` instances svc
    /\ i ∈ instances svc2
    /\ service_heap (instance_change_spec s svc m w1) !! s = Some svc2.
Proof.
  intros (Hs & (m0 & Hm0 & HSok) & Hc & Hp & Hn & Hpool & Hr) Hm Hx Hi Hok Hst w1.
  rewrite Hm in Hm0. injection Hm0 as <-.
  assert (Hs1 : service_heap w1 !! s = Some svc) by exact Hs.
  destruct (instance_change_spec_service s svc m w1 Hs1)
    as (svc2 & Hs2 & Hi2 & Hm2 & Hc2 & Hp2 & Hn2 & _).
  destruct (instance_change_spec_frame s svc m w1) as (Hh & Hph & _).
  assert (Hlt : (i < length (instance_heap w))%nat) by (eapply lookup_lt_Some; eauto).
  assert (Hr1 : roster_ok ok w1 (instances svc)).
  { unfold roster_ok in *. rewrite List.Forall_forall in *. intros j Hj.
    destruct (Hr j Hj) as (y & Hy & Hoky). simpl.
    destruct (decide (j = i)) as [->|Hne].
    - exists x'. split; [apply list_lookup_insert_eq; exact Hlt | exact Hok].
    - exists y. split; [rewrite list_lookup_insert_ne by congruence; exact Hy | exact Hoky]. }
  assert (Hin : (i, state (machine x')) ∈ not_down w1 (instances svc)).
  { apply not_down_elem. repeat split; [exact Hi| |].
    - unfold state_at. simpl. rewrite list_lookup_insert_eq by exact Hlt. reflexivity.
    - destruct Hst as [-> | ->]; discriminate. }
  exists svc2. split; [|split; [rewrite Hi2; apply not_down_refs|split; [|exact Hs2]]].
  2:{ rewrite Hi2. apply (list_elem_of_fmap_2 fst) in Hin. exact Hin. }
  repeat split.
  - exact Hs2.
  - eexists. split; [exact Hm2|]. cbn [state set_state]. rewrite Hn. apply Sok_closed.
    + exact HSok.
    + apply List.Forall_forall. intros [j st] Hq. apply list_elem_of_In in Hq.
      apply not_down_elem in Hq as (Hj & Hstj & _).
      unfold roster_ok in Hr1. rewrite List.Forall_forall in Hr1.
      apply list_elem_of_In in Hj.
      destruct (Hr1 j Hj) as (y & Hy & Hoky). unfold state_at in Hstj.
      rewrite Hy in Hstj. simpl in Hstj. injection Hstj as <-. exact Hoky.
    + exists (i, state (machine x')). split; [exact Hin|exact Hst].
  - congruence.
  - congruence.
  - congruence.
  - rewrite Hph. exact Hpool.
  - unfold roster_ok. rewrite Hh, Hi2. apply List.Forall_forall. intros j Hj.
    apply in_map_iff in Hj as ([j' st] & <- & Hq). apply list_elem_of_In in Hq.
    apply not_down_elem in Hq as (Hj & _). simpl.
    unfold roster_ok in Hr1. rewrite List.Forall_forall in Hr1.
    apply Hr1. apply list_elem_of_In. exact Hj.
Qed.

Lemma serving_frame w w' svc :
  service_heap w' = service_heap w ->
  pool_heap w' = pool_heap w ->
  roster_ok ok w' (instances svc) ->
  serving s c p n ok Sok w svc ->
  serving s c p n ok Sok w' svc.
Proof.
  intros Hsh Hph Hr (Hs & Hm & Hc & Hp & Hn & Hpool & _).
  unfold serving. rewrite Hsh, Hph. auto 10.
Qed.

Lemma roster_ok_insert w l i x x' :
  roster_ok ok w l ->
  instance_heap w !! i = Some x ->
  ok (state (machine x')) = true ->
  roster_ok ok (set_instance_heap w (<[i := x']> (instance_heap w))) l.
Proof.
  intros Hr Hx Hok. unfold roster_ok in *. rewrite List.Forall_forall in *.
  assert (Hlt : (i < length (instance_heap w))%nat) by (eapply lookup_lt_Some; eauto).
  intros j Hj. destruct (Hr j Hj) as (y & Hy & Hoky). simpl.
  destruct (decide (j = i)) as [->|Hne].
  - exists x'. split; [apply list_lookup_insert_eq; exact Hlt | exact Hok].
  - exists y. split; [rewrite list_lookup_insert_ne by congruence; exact Hy | exact Hoky].
Qed.

Lemma number_of_insert w i x x' j :
  instance_heap w !! i = Some x ->
  instance_number x' = instance_number x ->
  number_of (set_instance_heap w (<[i := x']> (instance_heap w))) j = number_of w j.
Proof.
  intros Hx Hn. unfold number_of. simpl.
  assert (Hlt : (i < length (instance_heap w))%nat) by (eapply lookup_lt_Some; eauto).
  destruct (decide (j = i)) as [->|Hne].
  - rewrite list_lookup_insert_eq by exact Hlt. rewrite Hx. simpl. exact Hn.
  - rewrite list_lookup_insert_ne by congruence. reflexivity.
Qed.

Lemma number_of_heap w w' j :
  instance_heap w' = instance_heap w -> number_of w' j = number_of w j.
Proof. intros H. unfold number_of. rewrite H. reflexivity. Qed.

(** [start()] of an instance that its service has just created. *)
Lemma ServiceInstance_start_new w svc i x :
  serving s c p n ok Sok w svc ->
  i ∈ instances svc ->
  instance_heap w !! i = Some x ->
  service x = s ->
  state (machine x) = ServiceInstanceState.STATE_DOWN ->
  listeners (machine x) = [CB_instance_change s] ->
  exists w' svc',
    ServiceInstance_start render i w = (Ret tt, w')
    /\ serving s c p n ok Sok w' svc'
    /\ instances svc' `sublist_of` instances svc
    /\ length (instance_heap w') = length (instance_heap w)
    /\ (forall j, number_of w' j = number_of w j)
    /\ log w `prefix_of` log w'.
Proof.
  intros Hsv Hi Hx Hsx Hst Hl.
  pose proof Hsv as (Hs & (m & Hm & HSok) & Hc & Hp & Hn & Hpool & Hr).
  assert (Hlt : (i < length (instance_heap w))%nat) by (eapply lookup_lt_Some; eauto).
  unfold ServiceInstance_start.
  rewrite (bind_ret_run _ _ _ _ _ (ServiceInstance_state_run _ _ _ Hx)), Hst.
  cbn [ServiceInstanceState.eqb negb].
  assert (Hev : instance_next (state (machine x)) "start"
                = Some ServiceInstanceState.STATE_STARTING) by (rewrite Hst; reflexivity).
  rewrite (bind_ret_run _ _ _ _ _
             (ServiceInstance_transition_run w s svc m i x _ _ Hx Hl Hev Hs Hm
                (roster_ok_valid _ _ Hr))).
  set (x2 := with_machine x (set_state (machine x) ServiceInstanceState.STATE_STARTING)).
  set (w1 := set_instance_heap w (<[i := x2]> (instance_heap w))).
  set (w2 := instance_change_spec s svc m w1).
  destruct (serving_after_change w svc m i x x2 Hsv Hm Hx Hi ok_starting
              (or_introl eq_refl)) as (svc2 & Hsv2 & Hsub2 & Hi2 & Hs2).
  fold w1 in Hsv2, Hs2. fold w2 in Hsv2, Hs2.
  destruct (instance_change_spec_frame s svc m w1) as (Hh2 & Hp2 & Hr2). fold w2 in Hh2, Hp2, Hr2.
  assert (Hx2 : instance_heap w2 !! i = Some x2)
    by (rewrite Hh2; simpl; apply list_lookup_insert_eq; exact Hlt).
  assert (Hsx2 : service x2 = s) by exact Hsx.
  pose proof Hsv2 as (_ & (m2 & Hm2 & HSok2) & Hc2 & _ & _ & _ & Hroster2).
  assert (Hlog2 : log w `prefix_of` log w2).
  { unfold w2, instance_change_spec. destruct (arms_restart _ _); simpl;
      eexists; reflexivity. }
  assert (Hnum2 : forall j, number_of w2 j = number_of w j).
  { intros j. rewrite (number_of_heap _ _ _ Hh2). apply (number_of_insert _ _ _ _ _ Hx).
    reflexivity. }
  assert (Hlen2 : length (instance_heap w2) = length (instance_heap w))
    by (rewrite Hh2; simpl; apply length_insert).
  unfold instance_command.
  rewrite bind_assoc, (bind_ret_run _ _ _ _ _ (get_instance_run _ _ _ Hx2)).
  rewrite Hsx2.
  rewrite bind_assoc, (bind_ret_run _ _ _ _ _ (get_service_run _ _ _ Hs2)).
  rewrite Hc2. cbn [from_option]. rewrite bind_assoc. unfold ret at 1. unfold bind at 1.
  destruct (render c (context svc2 x2)) as [cmd|] eqn:Hrender.
  - unfold ret at 1. unfold bind at 1.
    rewrite (bind_ret_run _ _ _ _ _ (get_instance_run _ _ _ Hx2)).
    rewrite (bind_ret_run _ _ _ _ _ (update_instance_run _ _ _ _ Hx2)).
    eexists _, svc2. split; [reflexivity|].
    split; [|split; [exact Hsub2|split; [|split]]].
    + apply (serving_frame w2); [reflexivity | reflexivity | | exact Hsv2].
      apply (roster_ok_insert w2 _ i x2); [exact Hroster2 | exact Hx2 | exact ok_starting].
    + simpl. rewrite length_insert. exact Hlen2.
    + intros j. etransitivity; [|apply Hnum2].
      apply (number_of_insert w2 i x2); [exact Hx2 | reflexivity].
    + exact Hlog2.
  - destruct renders_or_ok as [Hre | Hokf];
      [destruct (Hre (context svc2 x2)) as [? Hre']; congruence|].
    rewrite bind_assoc. unfold log_msg at 1, modify at 1, bind at 1.
    unfold ret at 1. unfold bind at 1.
    unfold _start_complete_failstart.
    unfold log_msg at 1, modify at 1, bind at 1.
    set (w3 := set_log _ _).
    assert (Hx3 : instance_heap w3 !! i = Some x2) by exact Hx2.
    assert (Hs3 : service_heap w3 !! s = Some svc2) by exact Hs2.
    assert (Hsv3 : serving s c p n ok Sok w3 svc2)
      by (apply (serving_frame w2); [reflexivity | reflexivity | exact Hroster2 | exact Hsv2]).
    assert (Hev3 : instance_next (state (machine x2)) "down"
                   = Some ServiceInstanceState.STATE_FAILED) by reflexivity.
    rewrite (bind_ret_run _ _ _ _ _
               (ServiceInstance_transition_run w3 s svc2 m2 i x2 _ _ Hx3 Hl Hev3 Hs3 Hm2
                  (roster_ok_valid _ _ Hroster2))).
    set (x3 := with_machine x2 (set_state (machine x2) ServiceInstanceState.STATE_FAILED)).
    set (w4 := set_instance_heap w3 (<[i := x3]> (instance_heap w3))).
    set (w5 := instance_change_spec s svc2 m2 w4).
    destruct (serving_after_change w3 svc2 m2 i x2 x3 Hsv3 Hm2 Hx3 Hi2 Hokf
                (or_intror eq_refl)) as (svc5 & Hsv5 & Hsub5 & Hi5 & Hs5).
    fold w4 in Hsv5, Hs5. fold w5 in Hsv5, Hs5.
    destruct (instance_change_spec_frame s svc2 m2 w4) as (Hh5 & Hp5 & Hr5).
    fold w5 in Hh5, Hp5, Hr5.
    assert (Hx5 : instance_heap w5 !! i = Some x3).
    { rewrite Hh5. simpl. apply list_lookup_insert_eq. rewrite Hh2. simpl.
      rewrite length_insert. exact Hlt. }
    rewrite (update_instance_run _ _ _ _ Hx5).
    pose proof Hsv5 as (_ & _ & _ & _ & _ & _ & Hroster5).
    eexists _, svc5. split; [reflexivity|].
    split; [|split; [etransitivity; eassumption|split; [|split]]].
    + apply (serving_frame w5); [reflexivity | reflexivity | | exact Hsv5].
      apply (roster_ok_insert w5 _ i x3); [exact Hroster5 | exact Hx5 | exact Hokf].
    + simpl. rewrite length_insert, Hh5. simpl. rewrite length_insert. exact Hlen2.
    + intros j. etransitivity; [|apply Hnum2].
      etransitivity; [apply (number_of_insert w5 i x3); [exact Hx5 | reflexivity]|].
      rewrite (number_of_heap _ _ _ Hh5).
      apply (number_of_insert w3 i x2); [exact Hx3 | reflexivity].
    + etransitivity; [exact Hlog2|]. etransitivity; [|
        unfold w5, instance_change_spec; destruct (arms_restart _ _); simpl;
        eexists; reflexivity].
      simpl. eexists. rewrite <- !app_assoc. reflexivity.
Qed.

Lemma sorted_roster_perm w l i k :
  map fst (sort_by_key (keyed w l ++ [(i, k)])) ≡ₚ i :: l.
Proof.
  rewrite sort_by_key_perm, map_app, keyed_refs. simpl.
  symmetry. apply Permutation_cons_append.
Qed.

(** [build_instance]: with every number of [[0, n)] in use it logs an
    error and answers [None], changing no roster; otherwise it creates and
    starts an instance that carries the lowest unused number. *)
Lemma build_instance_spec w svc :
  serving s c p n ok Sok w svc ->
  exists r w' svc',
    build_instance render s w = (Ret r, w')
    /\ serving s c p n ok Sok w' svc'
    /\ (forall j, (j < length (instance_heap w))%nat -> number_of w' j = number_of w j)
    /\ match r with
       | None =>
           lowest_unused n (numbers w (instances svc)) = None
           /\ instances svc' = instances svc
           /\ instance_heap w' = instance_heap w
           /\ exists msg, last (log w') = Some (ERROR, msg)
       | Some i =>
           exists k,
             lowest_unused n (numbers w (instances svc)) = Some k
             /\ i = length (instance_heap w)
             /\ number_of w' i = k
             /\ instances svc' ⊆+ i :: instances svc
             /\ length (instance_heap w') = S (length (instance_heap w))
       end.
Proof.
  intros Hsv.
  pose proof Hsv as (Hs & (m & Hm & HSok) & Hc & Hp & Hn & (pool & Hpool & Hnodes) & Hr).
  assert (Hplt : (p < length (pool_heap w))%nat) by (eapply lookup_lt_Some; eauto).
  unfold build_instance.
  rewrite (bind_ret_run _ _ _ _ _ (get_service_run _ _ _ Hs)), Hp.
  cbn [from_option]. unfold ret at 1. unfold bind at 1.
  destruct (next_round_robin_run w p pool Hpool Hnodes) as (nd & Hrr).
  rewrite (bind_ret_run _ _ _ _ _ Hrr).
  set (w1 := set_pool_heap w _).
  assert (Hs1 : service_heap w1 !! s = Some svc) by exact Hs.
  assert (Hv1 : valid_refs w1 (instances svc)) by (apply (roster_ok_valid w), Hr).
  assert (Hsv1 : serving s c p n ok Sok w1 svc).
  { unfold serving. repeat split; eauto.
    eexists. split; [simpl; apply list_lookup_insert_eq; exact Hplt | exact Hnodes]. }
  rewrite (bind_ret_run _ _ _ _ _ (_find_unused_instance_number_run _ _ _ Hs1 Hv1)).
  rewrite Hn. change (numbers w1 (instances svc)) with (numbers w (instances svc)).
  destruct (lowest_unused n (numbers w (instances svc))) as [k|] eqn:Hk.
  - rewrite (bind_ret_run _ _ _ _ _ (_create_instance_run w1 s svc nd k Hs1 Hv1)).
    set (i := length (instance_heap w1)).
    set (x := new_instance s svc nd k).
    set (svc2 := with_instances svc _).
    set (w2 := mkWorld _ _ _ _ _ _).
    assert (Hslt : (s < length (service_heap w))%nat) by (eapply lookup_lt_Some; eauto).
    assert (Hperm : instances svc2 ≡ₚ i :: instances svc) by apply sorted_roster_perm.
    assert (Hx2 : instance_heap w2 !! i = Some x)
      by (simpl; apply list_lookup_middle; reflexivity).
    assert (Hsv2 : serving s c p n ok Sok w2 svc2).
    { unfold serving. repeat split; eauto.
      - simpl. apply list_lookup_insert_eq. exact Hslt.
      - destruct Hsv1 as (_ & _ & _ & _ & _ & Hp1 & _). exact Hp1.
      - unfold roster_ok. rewrite Hperm. constructor.
        + exists x. split; [exact Hx2 | exact ok_down].
        + eapply Forall_impl; [exact Hr|]. intros j (y & Hy & Hoky).
          exists y. split; [|exact Hoky]. simpl. rewrite lookup_app_l; [exact Hy|].
          eapply lookup_lt_Some; eauto. }
    assert (Hi2 : i ∈ instances svc2) by (rewrite Hperm; left).
    destruct (ServiceInstance_start_new w2 svc2 i x Hsv2 Hi2 Hx2 eq_refl eq_refl eq_refl)
      as (w' & svc' & Hrun & Hsv' & Hsub & Hlen & Hnum & _).
    rewrite (bind_ret_run _ _ _ _ _ Hrun).
    exists (Some i), w', svc'. split; [reflexivity|]. split; [exact Hsv'|]. split.
    + intros j Hj. rewrite Hnum. unfold number_of. simpl.
      rewrite lookup_app_l by exact Hj. reflexivity.
    + exists k. repeat split; auto.
      * rewrite Hnum. unfold number_of. rewrite Hx2. reflexivity.
      * rewrite <- Hperm. apply sublist_submseteq, Hsub.
      * rewrite Hlen. simpl. rewrite length_app. simpl. lia.
  - unfold log_msg at 1, modify at 1, bind at 1. unfold ret.
    eexists None, _, svc. split; [reflexivity|].
    split; [|split; [|repeat split]].
    + eapply (serving_frame w1); [reflexivity | reflexivity | | exact Hsv1]. exact Hr.
    + reflexivity.
    + eexists. simpl. apply last_snoc.
Qed.

Lemma build_loop_spec (l : list Z) w svc :
  serving s c p n ok Sok w svc ->
  exists w' svc',
    for_each l (fun _ => build_instance render s ;; ret tt) w = (Ret tt, w')
    /\ serving s c p n ok Sok w' svc'.
Proof.
  revert w svc. induction l as [|a l IH]; intros w svc Hsv; simpl.
  - exists w, svc. split; [reflexivity | exact Hsv].
  - destruct (build_instance_spec w svc Hsv) as (r & w1 & svc1 & Hrun & Hsv1 & _).
    rewrite bind_assoc, (bind_ret_run _ _ _ _ _ Hrun).
    unfold ret at 1. unfold bind at 1. apply (IH w1 svc1 Hsv1).
Qed.

Hypothesis ok_unless_failed :
  forall st, st <> ServiceInstanceState.STATE_FAILED -> ok st = true.

(** [Service.start()] returns normally; before its last step, the [start]
    event, the machine is in a state that satisfies [Sok]. *)
Lemma Service_start_spec w svc :
  serving s c p n (fun _ => true) Sok w svc ->
  exists w' svc' m' st,
    Service_start render s w = (Ret tt, w')
    /\ service_heap w' !! s = Some svc'
    /\ service_machine svc' = Some m'
    /\ Sok st
    /\ state m' = fire_event st "start".
Proof.
  intros (Hs & (m & Hm & HSok) & Hc & Hp & Hn & Hpool & Hr).
  assert (Hslt : (s < length (service_heap w))%nat) by (eapply lookup_lt_Some; eauto).
  unfold Service_start.
  rewrite (bind_ret_run _ _ _ _ _ (update_service_run _ _ _ _ Hs)).
  set (svc1 := with_restart_timer svc None).
  set (w1 := set_service_heap w _).
  assert (Hs1 : service_heap w1 !! s = Some svc1)
    by (apply list_lookup_insert_eq; exact Hslt).
  assert (Hv1 : valid_refs w1 (instances svc1)).
  { unfold valid_refs. eapply Forall_impl; [exact Hr|]. intros j (y & Hy & _). eauto. }
  unfold _clear_failed_instances.
  rewrite bind_assoc, (bind_ret_run _ _ _ _ _ (get_service_run _ _ _ Hs1)).
  rewrite bind_assoc, (bind_ret_run _ _ _ _ _ (with_states_run _ _ Hv1)).
  rewrite (bind_ret_run _ _ _ _ _ (update_service_run _ _ _ _ Hs1)).
  set (kept := List.filter _ (instance_states w1 (instances svc1))).
  set (svc2 := with_instances svc1 (map fst kept)).
  set (w2 := set_service_heap w1 _).
  assert (Hs2 : service_heap w2 !! s = Some svc2).
  { apply list_lookup_insert_eq. simpl. rewrite length_insert. exact Hslt. }
  assert (Hsv2 : serving s c p n ok Sok w2 svc2).
  { unfold serving. repeat split; eauto.
    unfold roster_ok. apply List.Forall_forall. intros j Hj.
    apply in_map_iff in Hj as ([j' st] & <- & Hq).
    apply filter_In in Hq as [Hq Hnf]. apply list_elem_of_In in Hq.
    apply instance_states_elem in Hq as [_ Hst]. unfold state_at in Hst. simpl in *.
    destruct (instance_heap w !! j') as [y|] eqn:Hy; [|discriminate].
    simpl in Hst. injection Hst as <-. exists y. split; [reflexivity|].
    apply ok_unless_failed. intros Hf. unfold state_is in Hnf. simpl in Hnf.
    rewrite Hf in Hnf. discriminate. }
  rewrite (bind_ret_run _ _ _ _ _ (get_service_run _ _ _ Hs2)).
  assert (Hloop : exists w3 svc3,
             (if 0 <? count svc2 - Z.of_nat (length (instances svc2))
              then for_each (range 0 (count svc2 - Z.of_nat (length (instances svc2))))
                     (fun _ => build_instance render s ;; ret tt)
              else ret tt) w2 = (Ret tt, w3)
             /\ serving s c p n ok Sok w3 svc3).
  { destruct (0 <? _).
    - apply (build_loop_spec _ w2 svc2). exact Hsv2.
    - exists w2, svc2. split; [reflexivity | exact Hsv2]. }
  destruct Hloop as (w3 & svc3 & Hrun3 & (Hs3 & (m3 & Hm3 & HSok3) & _)).
  rewrite (bind_ret_run _ _ _ _ _ Hrun3).
  rewrite (Service_transition_run _ _ _ _ _ Hs3 Hm3).
  eexists _, _, _, (state m3). split; [reflexivity|].
  split; [apply (set_service_lookup _ _ _ _ Hs3)|].
  split; [reflexivity|]. split; [exact HSok3 | reflexivity].
Qed.

End Build.

(** ** C10: restarting from [failed] and from [degraded] *)

(** None of the events [_instance_change] fires moves a [failed] service. *)
Lemma failed_absorbs n live :
  fire_events ServiceState.STATE_FAILED (aggregate_events n live)
  = ServiceState.STATE_FAILED.
Proof.
  unfold aggregate_events.
  repeat match goal with |- context [if ?b then _ else _] => destruct b end;
    reflexivity.
Qed.

(** With an instance still starting and none failed, the only event
    fired is [down], which [degraded] ignores. *)
Lemma degraded_quiet n live :
  Forall (fun q => not_failed (snd q) = true) live ->
  (exists q, q ∈ live /\ (snd q = ServiceInstanceState.STATE_STARTING
                          \/ snd q = ServiceInstanceState.STATE_FAILED)) ->
  fire_events ServiceState.STATE_DEGRADED (aggregate_events n live)
  = ServiceState.STATE_DEGRADED.
Proof.
  intros Hall (q & Hq & Hst). unfold aggregate_events.
  assert (Hq' : In q live) by (apply list_elem_of_In; exact Hq).
  rewrite List.Forall_forall in Hall.
  assert (Hs : snd q = ServiceInstanceState.STATE_STARTING).
  { destruct Hst as [|Hf]; [assumption|]. specialize (Hall q Hq').
    rewrite Hf in Hall. discriminate. }
  destruct live as [|q0 live']; [destruct Hq'|]. simpl Nat.eqb. cbv iota.
  assert (He : existsb (state_is ServiceInstanceState.STATE_FAILED) (q0 :: live') = false).
  { apply not_true_is_false. intros He. apply existsb_exists in He as (r & Hr & Hrf).
    specialize (Hall r Hr). unfold state_is in Hrf. unfold not_failed in Hall.
    rewrite Hrf in Hall. discriminate. }
  rewrite He.
  destruct (_ <? n); [reflexivity|].
  assert (Hu : forallb (state_is ServiceInstanceState.STATE_UP) (q0 :: live') = false).
  { apply not_true_is_false. intros Hu. rewrite forallb_forall in Hu.
    specialize (Hu q Hq'). unfold state_is in Hu. rewrite Hs in Hu. discriminate. }
  rewrite Hu. reflexivity.
Qed.

Lemma failed_closed n st live :
  ServiceState.STATE_FAILED = st ->
  Forall (fun q : nat * IState => (fun _ : IState => true) (snd q) = true) live ->
  (exists q, q ∈ live /\ (snd q = ServiceInstanceState.STATE_STARTING
                          \/ snd q = ServiceInstanceState.STATE_FAILED)) ->
  ServiceState.STATE_FAILED = fire_events st (aggregate_events n live).
Proof. intros <- _ _. symmetry. apply failed_absorbs. Qed.

Lemma degraded_closed n st live :
  ServiceState.STATE_DEGRADED = st ->
  Forall (fun q => not_failed (snd q) = true) live ->
  (exists q, q ∈ live /\ (snd q = ServiceInstanceState.STATE_STARTING
                          \/ snd q = ServiceInstanceState.STATE_FAILED)) ->
  ServiceState.STATE_DEGRADED = fire_events st (aggregate_events n live).
Proof. intros <- Hall Hex. symmetry. apply degraded_quiet; assumption. Qed.

Lemma not_failed_unless st :
  st <> ServiceInstanceState.STATE_FAILED -> not_failed st = true.
Proof. destruct st; try reflexivity. congruence. Qed.

(** C10, counterexample: a restart pass that does not leave the machine
    [degraded].  The command of the service does not render and the
    roster is empty: the instance that [start()] builds fails in its own
    [start()], [all_failed] takes the machine from [degraded] to
    [failed], and the [start] event that follows takes it to
    [starting]. *)
Lemma degraded_restart_reaches_starting :
  machine_state world_degraded_broken 1 = Some ServiceState.STATE_DEGRADED
  /\ (exists svc, service_heap world_degraded_broken !! 1%nat = Some svc
                  /\ is_Some (_restart_timer svc)
                  /\ instances svc = [])
  /\ (exists w', _restart_after_failure render_literal 1 world_degraded_broken
                 = (Ret tt, w')
                 /\ machine_state w' 1 = Some ServiceState.STATE_STARTING)
  /\ (exists w', run_op render_literal (Op_fire 0) world_degraded_broken = (Ret tt, w')
                 /\ machine_state w' 1 = Some ServiceState.STATE_STARTING).
Proof.
  split; [vm_compute; reflexivity|].
  split.
  { eexists. split; [vm_compute; reflexivity|].
    split; [eexists; reflexivity | reflexivity]. }
  split; eexists; (split; [vm_compute; reflexivity|]); vm_compute; reflexivity.
Qed.

(** C10 (amended): the service table accepts [start] in [failed],
    leading to [starting], so that [start()], and the restart timer
    through [_restart_after_failure], take a failed service with a
    command and a node to [starting]; [degraded] has no [start] entry
    (it is left by [stop], [all_up] and [all_failed] only), so a restart
    pass of a service whose command renders, whose new instances
    therefore do start, leaves the machine [degraded]. *)
Theorem restart_from_failed_and_degraded :
  service_next ServiceState.STATE_FAILED "start" = Some ServiceState.STATE_STARTING
  /\ service_next ServiceState.STATE_DEGRADED "start" = None
  /\ map fst (ServiceState.transitions ServiceState.STATE_DEGRADED)
     = ["stop"; "all_up"; "all_failed"]
  /\ service_next ServiceState.STATE_DEGRADED "all_up" = Some ServiceState.STATE_UP
  /\ (forall render w s svc c p,
        serving s c p (count svc) (fun _ => true) (eq ServiceState.STATE_FAILED) w svc ->
        (exists w', Service_start render s w = (Ret tt, w')
                    /\ machine_state w' s = Some ServiceState.STATE_STARTING)
        /\ (is_Some (_restart_timer svc) ->
            exists w', _restart_after_failure render s w = (Ret tt, w')
                       /\ machine_state w' s = Some ServiceState.STATE_STARTING))
  /\ (forall render w s svc c p,
        serving s c p (count svc) (fun _ => true) (eq ServiceState.STATE_DEGRADED) w svc ->
        (forall ctx, is_Some (render c ctx)) ->
        is_Some (_restart_timer svc) ->
        exists w', _restart_after_failure render s w = (Ret tt, w')
                   /\ machine_state w' s = Some ServiceState.STATE_DEGRADED).
Proof.
  split; [reflexivity|]. split; [reflexivity|]. split; [reflexivity|].
  split; [reflexivity|]. split.
  - intros render w s svc c p Hsv.
    assert (Hstart : forall w0, serving s c p (count svc) (fun _ => true)
                                  (eq ServiceState.STATE_FAILED) w0 svc ->
              exists w', Service_start render s w0 = (Ret tt, w')
                         /\ machine_state w' s = Some ServiceState.STATE_STARTING).
    { intros w0 Hsv0.
      destruct (Service_start_spec render s c p (count svc) (fun _ => true)
                  (eq ServiceState.STATE_FAILED) eq_refl eq_refl (or_intror eq_refl)
                  (failed_closed (count svc))
                  (fun _ _ => eq_refl) w0 svc Hsv0)
        as (w' & svc' & m' & st & Hrun & Hs' & Hm' & <- & Hst).
      exists w'. split; [exact Hrun|].
      unfold machine_state. rewrite Hs'. simpl. rewrite Hm'. simpl. rewrite Hst.
      reflexivity. }
    split; [apply Hstart, Hsv|].
    intros [t Ht]. pose proof Hsv as (Hs & (m & Hm & Hst) & _).
    unfold _restart_after_failure.
    rewrite (bind_ret_run _ _ _ _ _ (get_service_run _ _ _ Hs)), Ht.
    unfold Service_state.
    rewrite bind_assoc, (bind_ret_run _ _ _ _ _ (get_service_run _ _ _ Hs)).
    unfold ret at 1. unfold bind at 1. rewrite Hm. cbn [fmap option_fmap option_map].
    rewrite <- Hst. unfold log_msg at 1, modify at 1, bind at 1.
    apply Hstart. exact Hsv.
  - intros render w s svc c p Hsv Hrender [t Ht].
    pose proof Hsv as (Hs & (m & Hm & Hst) & _).
    unfold _restart_after_failure.
    rewrite (bind_ret_run _ _ _ _ _ (get_service_run _ _ _ Hs)), Ht.
    unfold Service_state.
    rewrite bind_assoc, (bind_ret_run _ _ _ _ _ (get_service_run _ _ _ Hs)).
    unfold ret at 1. unfold bind at 1. rewrite Hm. cbn [fmap option_fmap option_map].
    rewrite <- Hst. unfold log_msg at 1, modify at 1, bind at 1.
    match goal with |- context [Service_start render s ?w0] =>
      destruct (Service_start_spec render s c p (count svc) not_failed
                  (eq ServiceState.STATE_DEGRADED) eq_refl eq_refl (or_introl Hrender)
                  (degraded_closed (count svc)) not_failed_unless
                  w0 svc Hsv)
        as (w' & svc' & m' & st & Hrun & Hs' & Hm' & <- & Hst')
    end.
    exists w'. split; [exact Hrun|].
    unfold machine_state. rewrite Hs'. simpl. rewrite Hm'. simpl. rewrite Hst'.
    reflexivity.
Qed.

(** A concrete service satisfies [serving]. *)
Ltac concrete_serving :=
  eexists; split;
  [ unfold serving; split; [vm_compute; reflexivity|];
    split; [eexists; split; reflexivity|];
    split; [reflexivity|]; split; [reflexivity|]; split; [reflexivity|];
    split; [eexists; split; [vm_compute; reflexivity | discriminate]|];
    unfold roster_ok; cbn [instances];
    repeat (apply List.Forall_cons;
            [eexists; split; [vm_compute; reflexivity | reflexivity]|]);
    apply List.Forall_nil
  | eexists; reflexivity ].

(** The restart timer fires on the failed service of scenario B, and on a
    degraded one. *)
Lemma restart_from_failed_and_degraded_witness :
  machine_state world_all_failed 0 = Some ServiceState.STATE_FAILED
  /\ machine_state (snd (_restart_after_failure render_literal 0 world_all_failed)) 0
     = Some ServiceState.STATE_STARTING
  /\ machine_state world_degraded 0 = Some ServiceState.STATE_DEGRADED
  /\ machine_state (snd (_restart_after_failure render_literal 0 world_degraded)) 0
     = Some ServiceState.STATE_DEGRADED.
Proof.
  destruct restart_from_failed_and_degraded as (_ & _ & _ & _ & Hf & Hd).
  split; [reflexivity|]. split; [|split; [reflexivity|]].
  - assert (H : exists svc,
               serving 0 "serve" 0 (count svc) (fun _ => true)
                 (eq ServiceState.STATE_FAILED) world_all_failed svc
               /\ is_Some (_restart_timer svc)) by concrete_serving.
    destruct H as (svc & Hsv & Ht).
    destruct (Hf render_literal _ _ _ _ _ Hsv) as (_ & Hrestart).
    destruct (Hrestart Ht) as (w' & Hrun & Hst). rewrite Hrun. exact Hst.
  - assert (H : exists svc,
               serving 0 "serve" 0 (count svc) (fun _ => true)
                 (eq ServiceState.STATE_DEGRADED) world_degraded svc
               /\ is_Some (_restart_timer svc)) by concrete_serving.
    destruct H as (svc & Hsv & Ht).
    assert (Hr : forall ctx, is_Some (render_literal "serve" ctx))
      by (intros ctx; eexists; reflexivity).
    destruct (Hd render_literal _ _ _ _ _ Hsv Hr Ht) as (w' & Hrun & Hst).
    rewrite Hrun. exact Hst.
Defined.

(** ** C6: the numbers of a roster *)

Lemma submseteq_NoDup {A} (l1 l2 : list A) : l1 ⊆+ l2 -> NoDup l2 -> NoDup l1.
Proof.
  intros Hsub Hnd. apply submseteq_Permutation in Hsub as (k & Hk).
  rewrite Hk in Hnd. apply NoDup_app in Hnd as (H & _). exact H.
Qed.

Lemma submseteq_Forall {A} (P : A -> Prop) (l1 l2 : list A) :
  l1 ⊆+ l2 -> Forall P l2 -> Forall P l1.
Proof.
  intros Hsub Hall. apply submseteq_Permutation in Hsub as (k & Hk).
  rewrite Hk in Hall. apply Forall_app in Hall as (H & _). exact H.
Qed.


(** ** The numbers of a roster stay pairwise distinct *)

Lemma distinct_numbers_frame w w' :
  instance_heap w' = instance_heap w ->
  service_heap w' = service_heap w ->
  distinct_numbers w -> distinct_numbers w'.
Proof.
  intros Hi Hs H s svc Hl. rewrite Hs in Hl. destruct (H s svc Hl) as [Hv Hn].
  unfold valid_refs, numbers, number_of in *. rewrite Hi. auto.
Qed.

Lemma distinct_numbers_log_msg l msg : preserves distinct_numbers (log_msg l msg).
Proof. apply preserves_modify. intros w. apply distinct_numbers_frame; reflexivity. Qed.

Lemma distinct_numbers_node_run n a : preserves distinct_numbers (node_run n a).
Proof. apply preserves_modify. intros w. apply distinct_numbers_frame; reflexivity. Qed.

Lemma distinct_numbers_callLater d cb : preserves distinct_numbers (callLater d cb).
Proof.
  unfold callLater. apply preserves_bind; [apply preserves_gets|]. intros r.
  apply preserves_bind; [|intros; apply preserves_ret].
  apply preserves_modify. intros w. apply distinct_numbers_frame; reflexivity.
Qed.

Lemma distinct_numbers_put_pool p x : preserves distinct_numbers (put_pool p x).
Proof. apply preserves_modify. intros w. apply distinct_numbers_frame; reflexivity. Qed.

#[export] Hint Resolve distinct_numbers_log_msg distinct_numbers_node_run
  distinct_numbers_callLater distinct_numbers_put_pool : preserve.

(** An assignment to an attribute of an instance other than its number. *)
Lemma distinct_numbers_update_instance i f :
  (forall x, instance_number (f x) = instance_number x) ->
  preserves distinct_numbers (update_instance i f).
Proof.
  intros Hf w H. unfold update_instance, get_instance, bind, gets, from_option.
  destruct (instance_heap w !! i) as [x|] eqn:Hx; [|exact H].
  simpl. intros s svc Hl. destruct (H s svc Hl) as [Hv Hn]. split.
  - apply valid_refs_lt. simpl. rewrite length_insert. apply valid_refs_lt, Hv.
  - unfold numbers in *.
    erewrite map_ext; [exact Hn|]. intros j.
    apply (number_of_insert w i x (f x) j Hx (Hf x)).
Qed.

#[export] Hint Extern 1 (preserves distinct_numbers (update_instance _ _)) =>
  (apply distinct_numbers_update_instance; intros; reflexivity) : preserve.

(** The roster of [s] is replaced by existing instances with distinct
    numbers. *)
Lemma distinct_numbers_set_roster w s svc svc' :
  distinct_numbers w ->
  service_heap w !! s = Some svc ->
  valid_refs w (instances svc') ->
  NoDup (numbers w (instances svc')) ->
  distinct_numbers (set_service_heap w (<[s := svc']> (service_heap w))).
Proof.
  intros H Hs Hv Hn s0 svc0 Hl. simpl in Hl.
  destruct (decide (s = s0)) as [<-|Hne].
  - rewrite list_lookup_insert_eq in Hl by (eapply lookup_lt_Some; eauto).
    injection Hl as <-. split; assumption.
  - rewrite list_lookup_insert_ne in Hl by exact Hne. apply (H s0 svc0 Hl).
Qed.

(** An assignment to an attribute of a service that leaves a part of its
    roster. *)
Lemma distinct_numbers_update_service s f :
  (forall x, instances (f x) ⊆+ instances x) ->
  preserves distinct_numbers (update_service s f).
Proof.
  intros Hf w H. unfold update_service, get_service, bind, gets, from_option.
  destruct (service_heap w !! s) as [svc|] eqn:Hs; [|exact H].
  simpl. destruct (H s svc Hs) as [Hv Hn].
  apply (distinct_numbers_set_roster w s svc (f svc) H Hs).
  - eapply submseteq_Forall; [apply Hf | exact Hv].
  - eapply submseteq_NoDup; [|exact Hn]. apply (fmap_submseteq (number_of w)), Hf.
Qed.

#[export] Hint Extern 1 (preserves distinct_numbers (update_service _ _)) =>
  (apply distinct_numbers_update_service; intros; simpl;
   first [reflexivity | apply submseteq_nil_l]) : preserve.

Lemma distinct_numbers_Service_transition s ev :
  preserves distinct_numbers (Service_transition s ev).
Proof. unfold Service_transition. preserve. Qed.

#[export] Hint Resolve distinct_numbers_Service_transition : preserve.

Lemma get_service_cases s w :
  (exists svc, service_heap w !! s = Some svc /\ get_service s w = (Ret svc, w))
  \/ snd (get_service s w) = w /\ forall a, fst (get_service s w) <> Ret a.
Proof.
  unfold get_service, bind, gets, from_option.
  destruct (service_heap w !! s) as [svc|]; [left; eauto|].
  right. split; [reflexivity | discriminate].
Qed.

(** A bind whose first computation raises ends where that one ends. *)
Lemma bind_no_ret {A B} (m : M A) (k : A -> M B) w :
  (forall a, fst (m w) <> Ret a) -> snd (bind m k w) = snd (m w).
Proof.
  intros H. unfold bind. destruct (m w) as [[a|e|] w1]; simpl in *;
    [exfalso; eapply H; reflexivity | reflexivity | reflexivity].
Qed.

Lemma roster_filter_submseteq (f : nat * IState -> bool) w l :
  map fst (List.filter f (instance_states w l)) ⊆+ l.
Proof.
  apply sublist_submseteq. etransitivity; [|apply instance_states_refs].
  apply (fmap_sublist fst), filter_sublist.
Qed.

Lemma distinct_numbers__instance_change s :
  preserves distinct_numbers (_instance_change s).
Proof.
  intros w H. unfold _instance_change.
  destruct (get_service_cases s w) as [(svc & Hs & Hg)|[Hw Hn]].
  2:{ rewrite bind_no_ret by exact Hn. rewrite Hw. exact H. }
  destruct (H s svc Hs) as [Hv Hnd].
  rewrite (bind_ret_run _ _ _ _ _ Hg).
  rewrite (bind_ret_run _ _ _ _ _ (with_states_run _ _ Hv)).
  rewrite (bind_ret_run _ _ _ _ _ (update_service_run _ _ _ _ Hs)).
  match goal with
  | |- distinct_numbers (snd (?m ?w1)) =>
      assert (Hm : preserves distinct_numbers m) by preserve; apply Hm
  end.
  apply (distinct_numbers_set_roster w s svc _ H Hs); cbn [with_instances instances].
  - eapply submseteq_Forall; [apply roster_filter_submseteq | exact Hv].
  - eapply submseteq_NoDup; [|exact Hnd].
    apply (fmap_submseteq (number_of w)), roster_filter_submseteq.
Qed.

Lemma distinct_numbers_notify cb : preserves distinct_numbers (notify cb).
Proof.
  destruct cb; simpl; auto with preserve. apply distinct_numbers__instance_change.
Qed.

#[export] Hint Resolve distinct_numbers__instance_change distinct_numbers_notify
  : preserve.

Lemma distinct_numbers_ServiceInstance_transition i ev :
  preserves distinct_numbers (ServiceInstance_transition i ev).
Proof. unfold ServiceInstance_transition. preserve. Qed.

#[export] Hint Resolve distinct_numbers_ServiceInstance_transition : preserve.

Lemma distinct_numbers__clear_failed_instances s :
  preserves distinct_numbers (_clear_failed_instances s).
Proof.
  intros w H. unfold _clear_failed_instances.
  destruct (get_service_cases s w) as [(svc & Hs & Hg)|[Hw Hn]].
  2:{ rewrite bind_no_ret by exact Hn. rewrite Hw. exact H. }
  destruct (H s svc Hs) as [Hv Hnd].
  rewrite (bind_ret_run _ _ _ _ _ Hg).
  rewrite (bind_ret_run _ _ _ _ _ (with_states_run _ _ Hv)).
  rewrite (update_service_run _ _ _ _ Hs).
  apply (distinct_numbers_set_roster w s svc _ H Hs); cbn [with_instances instances].
  - eapply submseteq_Forall; [apply roster_filter_submseteq | exact Hv].
  - eapply submseteq_NoDup; [|exact Hnd].
    apply (fmap_submseteq (number_of w)), roster_filter_submseteq.
Qed.

Lemma distinct_numbers_sort_instances s :
  preserves distinct_numbers (sort_instances s).
Proof.
  intros w H. unfold sort_instances.
  destruct (get_service_cases s w) as [(svc & Hs & Hg)|[Hw Hn]].
  2:{ rewrite bind_no_ret by exact Hn. rewrite Hw. exact H. }
  destruct (H s svc Hs) as [Hv Hnd].
  rewrite (bind_ret_run _ _ _ _ _ Hg).
  rewrite (bind_ret_run _ _ _ _ _ (with_numbers_run _ _ Hv)).
  rewrite (update_service_run _ _ _ _ Hs).
  assert (Hp : map fst (sort_by_key (keyed w (instances svc))) ≡ₚ instances svc)
    by (rewrite sort_by_key_perm; rewrite keyed_refs; reflexivity).
  apply (distinct_numbers_set_roster w s svc _ H Hs); cbn [with_instances instances].
  - unfold valid_refs. rewrite Hp. exact Hv.
  - unfold numbers. rewrite Hp. exact Hnd.
Qed.

#[export] Hint Resolve distinct_numbers__clear_failed_instances
  distinct_numbers_sort_instances : preserve.

(** The methods of an instance change no roster but through
    [_instance_change], and no instance number. *)
Lemma distinct_numbers_pid_file render i : preserves distinct_numbers (pid_file render i).
Proof. unfold pid_file. preserve. Qed.

Lemma distinct_numbers_instance_command render i :
  preserves distinct_numbers (instance_command render i).
Proof. unfold instance_command. preserve. Qed.

#[export] Hint Resolve distinct_numbers_pid_file distinct_numbers_instance_command
  : preserve.

Lemma distinct_numbers__queue_monitor i : preserves distinct_numbers (_queue_monitor i).
Proof. unfold _queue_monitor. preserve. Qed.

#[export] Hint Resolve distinct_numbers__queue_monitor : preserve.

Lemma distinct_numbers__monitor_complete_failstart i :
  preserves distinct_numbers (_monitor_complete_failstart i).
Proof. unfold _monitor_complete_failstart. preserve. Qed.

#[export] Hint Resolve distinct_numbers__monitor_complete_failstart : preserve.

Lemma distinct_numbers__run_monitor render i :
  preserves distinct_numbers (_run_monitor render i).
Proof. unfold _run_monitor. preserve. Qed.

Lemma distinct_numbers__monitor_complete_callback i e :
  preserves distinct_numbers (_monitor_complete_callback i e).
Proof. unfold _monitor_complete_callback. preserve. Qed.

Lemma distinct_numbers_kill_instance render i :
  preserves distinct_numbers (kill_instance render i).
Proof. unfold kill_instance. preserve. Qed.

#[export] Hint Resolve distinct_numbers__run_monitor
  distinct_numbers__monitor_complete_callback distinct_numbers_kill_instance : preserve.

Lemma distinct_numbers__start_complete_failstart i :
  preserves distinct_numbers (_start_complete_failstart i).
Proof. unfold _start_complete_failstart. preserve. Qed.

#[export] Hint Resolve distinct_numbers__start_complete_failstart : preserve.

Lemma distinct_numbers_ServiceInstance_start render i :
  preserves distinct_numbers (ServiceInstance_start render i).
Proof. unfold ServiceInstance_start, ServiceInstance_state. preserve. Qed.

Lemma distinct_numbers__start_complete_callback render i e :
  preserves distinct_numbers (_start_complete_callback render i e).
Proof. unfold _start_complete_callback, ServiceInstance_state. preserve. Qed.

Lemma distinct_numbers_ServiceInstance_stop render i :
  preserves distinct_numbers (ServiceInstance_stop render i).
Proof. unfold ServiceInstance_stop, ServiceInstance_state. preserve. Qed.

Lemma distinct_numbers__stop_complete_callback i e :
  preserves distinct_numbers (_stop_complete_callback i e).
Proof. unfold _stop_complete_callback. preserve. Qed.

Lemma distinct_numbers__stop_complete_failstart i :
  preserves distinct_numbers (_stop_complete_failstart i).
Proof. unfold _stop_complete_failstart. preserve. Qed.

#[export] Hint Resolve distinct_numbers_ServiceInstance_start
  distinct_numbers__start_complete_callback distinct_numbers_ServiceInstance_stop
  distinct_numbers__stop_complete_callback distinct_numbers__stop_complete_failstart
  : preserve.

(** A new instance, with a number that the roster does not hold. *)
Lemma distinct_numbers_create w s svc n k :
  distinct_numbers w ->
  service_heap w !! s = Some svc ->
  ~ In k (numbers w (instances svc)) ->
  let i := length (instance_heap w) in
  distinct_numbers
    (mkWorld (instance_heap w ++ [new_instance s svc n k])
       (<[s := with_instances svc
                 (map fst (sort_by_key (keyed w (instances svc) ++ [(i, k)])))]>
          (service_heap w))
       (pool_heap w) (reactor w) (node_runs w) (log w)).
Proof.
  intros H Hs Hk i s0 svc0 Hl. simpl in Hl.
  assert (Hold : forall l, valid_refs w l ->
            valid_refs (set_instance_heap w (instance_heap w ++ [new_instance s svc n k])) l
            /\ numbers (set_instance_heap w (instance_heap w ++ [new_instance s svc n k])) l
               = numbers w l).
  { intros l Hv. split.
    - apply valid_refs_lt. simpl. rewrite length_app. apply valid_refs_lt in Hv.
      eapply Forall_impl; [exact Hv|]. simpl. lia.
    - unfold numbers. apply map_ext_in. intros j Hj.
      apply valid_refs_lt in Hv. rewrite List.Forall_forall in Hv.
      rewrite number_of_app_l by (apply Hv, Hj).
      apply number_of_heap. reflexivity. }
  set (w' := mkWorld _ _ _ _ _ _).
  assert (Hw' : forall l, valid_refs w' l
                 = valid_refs (set_instance_heap w
                                 (instance_heap w ++ [new_instance s svc n k])) l)
    by reflexivity.
  assert (Hn' : forall l, numbers w' l
                 = numbers (set_instance_heap w
                              (instance_heap w ++ [new_instance s svc n k])) l)
    by reflexivity.
  destruct (decide (s = s0)) as [<-|Hne].
  - rewrite list_lookup_insert_eq in Hl by (eapply lookup_lt_Some; eauto).
    injection Hl as <-. cbn [with_instances instances].
    destruct (H s svc Hs) as [Hv Hnd].
    destruct (Hold _ Hv) as [Hv1 Hn1].
    pose proof (sorted_roster_perm w (instances svc) i k) as Hp.
    split.
    + unfold valid_refs. rewrite Hp. constructor; [|exact Hv1].
      simpl. rewrite lookup_app_r by reflexivity. rewrite Nat.sub_diag. eexists. reflexivity.
    + unfold numbers. rewrite Hp. cbn [map].
      fold (numbers w' (instances svc)). rewrite Hn', Hn1.
      assert (Hki : number_of w' i = k).
      { unfold number_of. simpl. rewrite lookup_app_r by reflexivity.
        rewrite Nat.sub_diag. reflexivity. }
      rewrite Hki. apply NoDup_cons_2; [rewrite list_elem_of_In; exact Hk | exact Hnd].
  - rewrite list_lookup_insert_ne in Hl by exact Hne.
    destruct (H s0 svc0 Hl) as [Hv Hnd]. destruct (Hold _ Hv) as [Hv1 Hn1].
    rewrite Hw', Hn', Hn1. split; assumption.
Qed.

Lemma next_round_robin_frame p w :
  instance_heap (snd (next_round_robin p w)) = instance_heap w
  /\ service_heap (snd (next_round_robin p w)) = service_heap w.
Proof.
  unfold next_round_robin, get_pool, bind, gets, from_option, put_pool, modify, ret.
  destruct (pool_heap w !! p) as [pool|]; simpl; [|auto].
  destruct (nodes pool !! _); simpl; auto.
Qed.

Lemma distinct_numbers_build_instance render s :
  preserves distinct_numbers (build_instance render s).
Proof.
  intros w H. unfold build_instance.
  destruct (get_service_cases s w) as [(svc & Hs & Hg)|[Hw Hn]].
  2:{ rewrite bind_no_ret by exact Hn. rewrite Hw. exact H. }
  rewrite (bind_ret_run _ _ _ _ _ Hg).
  destruct (node_pool svc) as [p|]; [|exact H].
  cbn [from_option]. unfold ret at 1. unfold bind at 1.
  destruct (next_round_robin_frame p w) as [Hi Hsh].
  unfold bind at 1.
  destruct (next_round_robin p w) as [[n|e|] w1] eqn:Hrr; simpl in Hi, Hsh;
    try (eapply distinct_numbers_frame; [exact Hi | exact Hsh | exact H]).
  assert (H1 : distinct_numbers w1)
    by (eapply distinct_numbers_frame; [exact Hi | exact Hsh | exact H]).
  assert (Hs1 : service_heap w1 !! s = Some svc) by (rewrite Hsh; exact Hs).
  destruct (H1 s svc Hs1) as [Hv1 Hnd1].
  rewrite (bind_ret_run _ _ _ _ _ (_find_unused_instance_number_run w1 s svc Hs1 Hv1)).
  destruct (lowest_unused (count svc) (numbers w1 (instances svc))) as [k|] eqn:Hk.
  - apply lowest_unused_Some in Hk as (_ & Hk & _).
    rewrite (bind_ret_run _ _ _ _ _ (_create_instance_run w1 s svc n k Hs1 Hv1)).
    match goal with
    | |- distinct_numbers (snd (?m ?w2)) =>
        assert (Hm : preserves distinct_numbers m) by preserve; apply Hm
    end.
    apply (distinct_numbers_create w1 s svc n k H1 Hs1 Hk).
  - match goal with
    | |- distinct_numbers (snd (?m _)) =>
        assert (Hm : preserves distinct_numbers m) by preserve; apply Hm
    end.
    exact H1.
Qed.

#[export] Hint Resolve distinct_numbers_build_instance : preserve.

(** *** The methods of a service *)

Lemma distinct_numbers_Service_start render s :
  preserves distinct_numbers (Service_start render s).
Proof. unfold Service_start. preserve. Qed.

#[export] Hint Resolve distinct_numbers_Service_start : preserve.

Lemma distinct_numbers__restart_after_failure render s :
  preserves distinct_numbers (_restart_after_failure render s).
Proof. unfold _restart_after_failure, Service_state. preserve. Qed.

Lemma distinct_numbers_Service_stop render s :
  preserves distinct_numbers (Service_stop render s).
Proof. unfold Service_stop, Service_state. preserve. Qed.

Lemma distinct_numbers_fill_shortfall render fuel s :
  preserves distinct_numbers (fill_shortfall render fuel s).
Proof.
  induction fuel as [|fuel IH]; simpl.
  - preserve. intros w H. exact H.
  - preserve.
Qed.

#[export] Hint Resolve distinct_numbers__restart_after_failure
  distinct_numbers_Service_stop distinct_numbers_fill_shortfall : preserve.

Lemma distinct_numbers_fire render cb : preserves distinct_numbers (fire render cb).
Proof. destruct cb; simpl; auto with preserve. Qed.

#[export] Hint Resolve distinct_numbers_fire : preserve.

(** *** [absorb_previous] *)

Lemma distinct_numbers_current_instances s :
  preserves distinct_numbers (current_instances s).
Proof. unfold current_instances, with_states, ServiceInstance_state. preserve. Qed.

Lemma distinct_numbers_incr variable v : preserves distinct_numbers (incr variable v).
Proof. unfold incr. preserve. Qed.

#[export] Hint Resolve distinct_numbers_current_instances distinct_numbers_incr
  : preserve.

(** A step of a computation that keeps [I], towards a goal [R] that [I]
    implies. *)
Lemma step_preserves {A B} (I R : World -> Prop) (m : M A) (k : A -> M B) w :
  preserves I m -> I w -> (forall w', I w' -> R w') ->
  (forall a w1, I w1 -> R (snd (k a w1))) ->
  R (snd (bind m k w)).
Proof.
  intros Hm HI HR Hk. specialize (Hm w HI). unfold bind.
  destruct (m w) as [[a|e|] w1]; simpl in *; auto.
Qed.

Lemma fresh_roster_get_service s s' : preserves (fresh_roster s) (get_service s').
Proof. apply preserves_get_service. Qed.

Lemma fresh_roster_set_machine s s' m :
  preserves (fresh_roster s)
    (update_service s' (fun x => with_service_machine x m)).
Proof.
  intros w [H He]. split.
  - assert (Hp : preserves distinct_numbers
                   (update_service s' (fun x => with_service_machine x m)))
      by preserve.
    apply Hp, H.
  - unfold update_service, get_service, bind, gets, from_option.
    destruct (service_heap w !! s') as [x|] eqn:Hx; [|exact He].
    simpl. intros svc Hl.
    destruct (decide (s' = s)) as [->|Hne].
    + rewrite list_lookup_insert_eq in Hl by (eapply lookup_lt_Some; eauto).
      injection Hl as <-. simpl. apply (He x Hx).
    + rewrite list_lookup_insert_ne in Hl by exact Hne. apply (He svc Hl).
Qed.

Lemma distinct_numbers_absorb_previous render fuel self prev w :
  distinct_numbers w ->
  (forall svc, service_heap w !! self = Some svc -> instances svc = []) ->
  distinct_numbers (snd (absorb_previous render fuel self prev w)).
Proof.
  intros H He. assert (HI : fresh_roster self w) by (split; assumption).
  clear H He. unfold absorb_previous.
  apply (step_preserves (fresh_roster self) distinct_numbers _ _ w
           (fresh_roster_get_service self self) HI); [intros w' [Hd _]; exact Hd|].
  clear w HI. intros s0 w HI.
  apply (step_preserves (fresh_roster self) distinct_numbers _ _ w
           (fresh_roster_get_service self prev) HI); [intros w' [Hd _]; exact Hd|].
  clear w HI. intros p0 w HI.
  apply (step_preserves (fresh_roster self) distinct_numbers _ _ w
           (fresh_roster_set_machine self self _) HI); [intros w' [Hd _]; exact Hd|].
  clear w HI. intros _ w HI.
  apply (step_preserves (fresh_roster self) distinct_numbers _ _ w
           (fresh_roster_set_machine self prev _) HI); [intros w' [Hd _]; exact Hd|].
  clear w HI. intros _ w [H He].
  destruct (get_service_cases prev w) as [(p1 & Hp1 & Hg)|[Hw Hn]].
  2:{ rewrite bind_no_ret by exact Hn. rewrite Hw. exact H. }
  rewrite (bind_ret_run _ _ _ _ _ Hg).
  destruct (service_heap w !! self) as [x|] eqn:Hx.
  2:{ clear He. rewrite bind_no_ret.
      - unfold update_service, get_service, bind, gets, from_option. rewrite Hx. exact H.
      - unfold update_service, get_service, bind, gets, from_option. rewrite Hx.
        discriminate. }
  rewrite (bind_ret_run _ _ _ _ _ (update_service_run _ _ _ _ Hx)).
  match goal with
  | |- distinct_numbers (snd (?m ?w1)) =>
      assert (Hm : preserves distinct_numbers m) by preserve; apply Hm
  end.
  destruct (H prev p1 Hp1) as [Hv Hnd].
  assert (Hxl : service_heap w !! self = Some x) by exact Hx.
  apply (distinct_numbers_set_roster w self x _ H Hxl); cbn [with_instances instances];
    rewrite (He x eq_refl); assumption.
Qed.

(** *** The event loop *)

Lemma distinct_numbers_run_op render op w :
  distinct_numbers w -> admissible w op ->
  distinct_numbers (snd (run_op render op w)).
Proof.
  intros H Ha.
  destruct op; simpl in *;
    try (match goal with
         | |- distinct_numbers (snd (?m w)) =>
             assert (Hm : preserves distinct_numbers m) by preserve; exact (Hm w H)
         end).
  - (* a new service definition *)
    intros s0 svc0 Hl. simpl in Hl.
    apply lookup_app_Some in Hl as [Hl|[_ Hl]].
    + apply (H s0 svc0 Hl).
    + destruct (s0 - length (service_heap w))%nat; [|discriminate].
      injection Hl as <-. rewrite Ha. split; constructor.
  - apply distinct_numbers_absorb_previous; assumption.
Qed.

Lemma distinct_numbers_run_all render ops :
  forall w, distinct_numbers w -> admissible_run render ops w ->
            distinct_numbers (run_all render ops w).
Proof.
  induction ops as [|op ops IH]; intros w H Ha; [exact H|].
  destruct Ha as [Ha Hrest]. simpl. apply IH; [|exact Hrest].
  apply distinct_numbers_run_op; assumption.
Qed.

(** [build_instance] keeps the numbers of a roster pairwise distinct and
    inside [[0, count)] when they were so: the new instance gets the
    lowest number of [[0, count)] that no instance of the roster holds,
    and when every number is held an error is logged and the answer is
    [None], the roster as it was. *)
Lemma build_instance_lowest_unused :
  forall render w s svc c p,
    serving s c p (count svc) (fun _ => true) (fun _ => True) w svc ->
    NoDup (numbers w (instances svc)) ->
    Forall (fun k => 0 <= k < count svc) (numbers w (instances svc)) ->
    exists r w' svc',
      build_instance render s w = (Ret r, w')
      /\ service_heap w' !! s = Some svc'
      /\ count svc' = count svc
      /\ NoDup (numbers w' (instances svc'))
      /\ Forall (fun k => 0 <= k < count svc) (numbers w' (instances svc'))
      /\ match r with
         | None =>
             (forall k, 0 <= k < count svc -> In k (numbers w (instances svc)))
             /\ instances svc' = instances svc
             /\ exists msg, last (log w') = Some (ERROR, msg)
         | Some i =>
             0 <= number_of w' i < count svc
             /\ ~ In (number_of w' i) (numbers w (instances svc))
             /\ (forall j, 0 <= j < number_of w' i -> In j (numbers w (instances svc)))
         end.
Proof.
  intros render w s svc c p Hsv Hnd Hrange.
  destruct (build_instance_spec render s c p (count svc) (fun _ => true) (fun _ => True)
              eq_refl eq_refl (or_intror eq_refl) (fun _ _ _ _ _ => I) w svc Hsv)
    as (r & w' & svc' & Hrun & Hsv' & Hnum & Hr).
  pose proof Hsv as (_ & _ & _ & _ & _ & _ & Hroster).
  pose proof Hsv' as (Hs' & _ & _ & _ & Hn' & _).
  assert (Hsame : numbers w' (instances svc) = numbers w (instances svc)).
  { unfold numbers. apply map_ext_in. intros j Hj. apply Hnum.
    unfold roster_ok in Hroster. rewrite List.Forall_forall in Hroster.
    destruct (Hroster j Hj) as (x & Hx & _). eapply lookup_lt_Some; eauto. }
  exists r, w', svc'. split; [exact Hrun|]. split; [exact Hs'|]. split; [exact Hn'|].
  destruct r as [i|].
  - destruct Hr as (k & Hk & Hi & Hki & Hsub & Hlen).
    apply lowest_unused_Some in Hk as (Hk1 & Hk2 & Hk3).
    assert (Hsub' : numbers w' (instances svc') ⊆+ k :: numbers w (instances svc)).
    { rewrite <- Hsame, <- Hki. unfold numbers.
      change (number_of w' i :: map (number_of w') (instances svc))
        with (map (number_of w') (i :: instances svc)).
      apply (fmap_submseteq (number_of w')), Hsub. }
    split; [|split].
    + eapply submseteq_NoDup; [exact Hsub'|].
      apply NoDup_cons_2; [rewrite list_elem_of_In; exact Hk2 | exact Hnd].
    + eapply submseteq_Forall; [exact Hsub'|]. constructor; assumption.
    + rewrite Hki. auto.
  - destruct Hr as (Hk & Hi & Hh & Hlog).
    rewrite Hi, Hsame. split; [exact Hnd|]. split; [exact Hrange|].
    split; [|auto]. apply lowest_unused_None. exact Hk.
Qed.



(** ** C9: [sleep_time]

    [sleep_time] adds and multiplies in binary64; the facts about
    rounding that its properties rest on come first. *)
Module Binary64Facts.

Import Binary64.

Lemma rhe_cases p t :
  0 <= t ->
  exists q r, p = q * 2 ^ t + r /\ 0 <= r < 2 ^ t
    /\ (round_half_even p t = q /\ 2 * r <= 2 ^ t
        \/ round_half_even p t = q + 1 /\ 2 ^ t <= 2 * r).
Proof.
  intros Ht. assert (HT : 0 < 2 ^ t) by (apply Z.pow_pos_nonneg; lia).
  exists (p / 2 ^ t), (p mod 2 ^ t).
  pose proof (Z.div_mod p (2 ^ t) ltac:(lia)) as Hdm.
  pose proof (Z.mod_pos_bound p (2 ^ t) HT) as Hr.
  split; [lia|]. split; [exact Hr|].
  unfold round_half_even.
  destruct (Z.compare_spec (2 * (p mod 2 ^ t)) (2 ^ t)) as [E|E|E].
  - destruct (Z.even (p / 2 ^ t)); [left | right]; split; lia.
  - left. split; lia.
  - right. split; lia.
Qed.

Lemma rhe_error p t :
  0 <= t -> 2 * Z.abs (round_half_even p t * 2 ^ t - p) <= 2 ^ t.
Proof.
  intros Ht. destruct (rhe_cases p t Ht) as (q & r & Hp & Hr & [[-> H]|[-> H]]); nia.
Qed.

Lemma rhe_exact n t : 0 <= t -> round_half_even (n * 2 ^ t) t = n.
Proof.
  intros Ht. assert (HT : 0 < 2 ^ t) by (apply Z.pow_pos_nonneg; lia).
  unfold round_half_even. rewrite Z.div_mul, Z.mod_mul by lia.
  change (2 * 0) with 0.
  destruct (Z.compare_spec 0 (2 ^ t)); [lia | reflexivity | lia].
Qed.

Lemma rhe_mono p1 p2 t :
  0 <= t -> p1 <= p2 -> round_half_even p1 t <= round_half_even p2 t.
Proof.
  intros Ht Hle. assert (HT : 0 < 2 ^ t) by (apply Z.pow_pos_nonneg; lia).
  pose proof (Z.div_le_mono p1 p2 (2 ^ t) HT Hle) as Hq.
  pose proof (Z.div_mod p1 (2 ^ t) ltac:(lia)) as Hdm1.
  pose proof (Z.div_mod p2 (2 ^ t) ltac:(lia)) as Hdm2.
  pose proof (Z.mod_pos_bound p1 (2 ^ t) HT) as Hr1.
  pose proof (Z.mod_pos_bound p2 (2 ^ t) HT) as Hr2.
  unfold round_half_even.
  destruct (Z.eq_dec (p1 / 2 ^ t) (p2 / 2 ^ t)) as [E|E].
  - rewrite E in *.
    assert (Hr : p1 mod 2 ^ t <= p2 mod 2 ^ t) by lia.
    destruct (Z.compare_spec (2 * (p1 mod 2 ^ t)) (2 ^ t));
      destruct (Z.compare_spec (2 * (p2 mod 2 ^ t)) (2 ^ t));
      destruct (Z.even (p2 / 2 ^ t)); lia.
  - destruct (Z.compare_spec (2 * (p1 mod 2 ^ t)) (2 ^ t));
      destruct (Z.compare_spec (2 * (p2 mod 2 ^ t)) (2 ^ t));
      destruct (Z.even (p1 / 2 ^ t)); destruct (Z.even (p2 / 2 ^ t)); lia.
Qed.

Lemma round_pos_nonneg p k : 0 <= k -> 0 <= p -> 0 <= round_pos p k.
Proof.
  intros Hk Hp. unfold round_pos.
  set (s := Z.max 0 _). assert (Hs : 0 <= s) by lia.
  assert (0 <= round_half_even p (k + s)).
  { rewrite <- (rhe_exact 0 (k + s)) by lia. apply rhe_mono; lia. }
  assert (0 < 2 ^ s) by (apply Z.pow_pos_nonneg; lia). nia.
Qed.

Lemma round_pos_mono p1 p2 k :
  0 <= k -> 0 <= p1 <= p2 -> round_pos p1 k <= round_pos p2 k.
Proof.
  intros Hk [H0 Hle]. unfold round_pos.
  pose proof (Z.log2_le_mono p1 p2 Hle) as HL.
  set (s1 := Z.max 0 (Z.log2 p1 - k - 52)). set (s2 := Z.max 0 (Z.log2 p2 - k - 52)).
  assert (Hs : 0 <= s1 <= s2) by lia.
  destruct (Z.eq_dec s1 s2) as [E|E].
  - rewrite E. apply Z.mul_le_mono_nonneg_r; [apply Z.pow_nonneg; lia|].
    apply rhe_mono; lia.
  - assert (Hs2 : s2 = Z.log2 p2 - k - 52) by lia.
    assert (Hp2 : 0 < p2) by (destruct (Z.eq_dec p2 0) as [->|]; [simpl in *; lia | lia]).
    assert (H1 : round_half_even p1 (k + s1) <= 2 ^ 53).
    { rewrite <- (rhe_exact (2 ^ 53) (k + s1)) by lia. apply rhe_mono; [lia|].
      rewrite <- Z.pow_add_r by lia.
      destruct (Z.eq_dec p1 0) as [->|]; [apply Z.pow_nonneg; lia|].
      pose proof (Z.log2_spec p1 ltac:(lia)) as [_ Hu].
      apply Z.lt_le_incl. eapply Z.lt_le_trans; [exact Hu|].
      apply Z.pow_le_mono_r; lia. }
    assert (H2 : 2 ^ 52 <= round_half_even p2 (k + s2)).
    { rewrite <- (rhe_exact (2 ^ 52) (k + s2)) at 1 by lia. apply rhe_mono; [lia|].
      rewrite <- Z.pow_add_r by lia.
      pose proof (Z.log2_spec p2 Hp2) as [Hl _].
      eapply Z.le_trans; [|exact Hl]. apply Z.pow_le_mono_r; lia. }
    assert (Hpow : 2 ^ 53 * 2 ^ s1 <= 2 ^ 52 * 2 ^ s2).
    { rewrite <- !Z.pow_add_r by lia. apply Z.pow_le_mono_r; lia. }
    assert (0 < 2 ^ s1) by (apply Z.pow_pos_nonneg; lia).
    assert (0 < 2 ^ s2) by (apply Z.pow_pos_nonneg; lia).
    nia.
Qed.

Lemma round_mono p1 p2 k : 0 <= k -> p1 <= p2 -> round p1 k <= round p2 k.
Proof.
  intros Hk Hle. unfold round.
  destruct (Z.ltb_spec p1 0), (Z.ltb_spec p2 0); try lia.
  - apply Z.opp_le_mono. rewrite !Z.opp_involutive. apply round_pos_mono; lia.
  - pose proof (round_pos_nonneg (- p1) k Hk ltac:(lia)).
    pose proof (round_pos_nonneg p2 k Hk ltac:(lia)). lia.
  - apply round_pos_mono; lia.
Qed.

(** A number of at most 53 significant bits is not rounded. *)
Lemma round_pos_exact m j k :
  0 <= k -> 0 <= j -> 0 <= m < 2 ^ 53 -> round_pos (m * 2 ^ (j + k)) k = m * 2 ^ j.
Proof.
  intros Hk Hj [Hm0 Hm]. unfold round_pos.
  destruct (Z.eq_dec m 0) as [->|Hne].
  - rewrite !Z.mul_0_l. change 0 with (0 * 2 ^ (k + Z.max 0 (Z.log2 0 - k - 52))) at 1.
    rewrite rhe_exact by lia. reflexivity.
  - rewrite Z.log2_mul_pow2 by lia.
    assert (HL : Z.log2 m < 53) by (apply Z.log2_lt_pow2; lia).
    set (s := Z.max 0 (j + k + Z.log2 m - k - 52)).
    assert (Hs : 0 <= s <= j) by lia.
    replace (m * 2 ^ (j + k)) with ((m * 2 ^ (j - s)) * 2 ^ (k + s)).
    + rewrite rhe_exact by lia. rewrite <- Z.mul_assoc, <- Z.pow_add_r by lia.
      f_equal. f_equal. lia.
    + rewrite <- Z.mul_assoc, <- Z.pow_add_r by lia. f_equal. f_equal. lia.
Qed.

Lemma round_pos_error p k :
  0 <= k -> 0 < p -> k = 0 \/ k + 52 <= Z.log2 p ->
  Z.abs (round_pos p k * 2 ^ k - p) * 2 ^ 53 <= p.
Proof.
  intros Hk Hp Hn. unfold round_pos.
  set (s := Z.max 0 (Z.log2 p - k - 52)). assert (Hs : 0 <= s) by lia.
  pose proof (rhe_error p (k + s) ltac:(lia)) as He.
  replace (round_half_even p (k + s) * 2 ^ s * 2 ^ k)
    with (round_half_even p (k + s) * 2 ^ (k + s))
    by (rewrite <- Z.mul_assoc, <- Z.pow_add_r by lia; f_equal; f_equal; lia).
  pose proof (Z.log2_spec p Hp) as [Hl _].
  destruct (Z.eq_dec (k + s) 0) as [E|E].
  - rewrite E in *. change (2 ^ 0) with 1 in *.
    assert (Hz : round_half_even p 0 * 1 - p = 0) by lia.
    rewrite Hz. simpl. lia.
  - assert (Hle : 2 ^ (k + s + 52) <= p).
    { eapply Z.le_trans; [|exact Hl]. apply Z.pow_le_mono_r; lia. }
    rewrite Z.pow_add_r in Hle by lia.
    assert (0 < 2 ^ (k + s)) by (apply Z.pow_pos_nonneg; lia).
    change (2 ^ 53) with (2 * 2 ^ 52). nia.
Qed.

Lemma one_pos : 0 < one.
Proof. unfold one. apply Z.pow_pos_nonneg; lia. Qed.

Lemma one_split : one = 4722366482869645213696 * 2 ^ 1002.
Proof. unfold one. change 1074 with (72 + 1002). rewrite Z.pow_add_r by lia. reflexivity. Qed.

Lemma of_int_exact n : - 2 ^ 53 < n < 2 ^ 53 -> of_int n = n * one.
Proof.
  intros Hn. unfold of_int, round. pose proof one_pos.
  destruct (Z.ltb_spec (n * one) 0).
  - replace (- (n * one)) with ((- n) * 2 ^ (1074 + 0)) by (unfold one; simpl (1074 + 0); lia).
    rewrite round_pos_exact by lia. fold one. lia.
  - replace (n * one) with (n * 2 ^ (1074 + 0)) at 1 by (unfold one; reflexivity).
    rewrite round_pos_exact by nia. reflexivity.
Qed.

Lemma of_int_mono a b : a <= b -> of_int a <= of_int b.
Proof.
  intros H. unfold of_int. apply round_mono; [lia|]. pose proof one_pos. nia.
Qed.

Lemma MICRO_SEC_pos : 0 < Mcp.MICRO_SEC.
Proof. unfold Mcp.MICRO_SEC. assert (0 < 2 ^ 1002) by (apply Z.pow_pos_nonneg; lia). lia. Qed.

Lemma scale_pos : 0 < one * Mcp.MICRO_SEC.
Proof.
  unfold Mcp.MICRO_SEC. pose proof one_pos.
  assert (0 < 2 ^ 1002) by (apply Z.pow_pos_nonneg; lia). nia.
Qed.

Lemma fraction_eq us :
  0 <= us < 1000000 -> fraction us = round_pos (us * one * Mcp.MICRO_SEC) 1074.
Proof.
  intros H. unfold fraction, mul. rewrite of_int_exact by lia. unfold round.
  pose proof one_pos. pose proof MICRO_SEC_pos.
  pose proof scale_pos. rewrite <- Z.mul_assoc.
  destruct (Z.ltb_spec (us * (one * Mcp.MICRO_SEC)) 0); [nia | reflexivity].
Qed.

Lemma fraction_mono a b : 0 <= a <= b -> b < 1000000 -> fraction a <= fraction b.
Proof.
  intros H Hb. rewrite !fraction_eq by lia.
  pose proof one_pos. pose proof MICRO_SEC_pos.
  pose proof scale_pos. rewrite <- !Z.mul_assoc.
  apply round_pos_mono; [lia|]. split; nia.
Qed.

Lemma fraction_0 : fraction 0 = 0.
Proof.
  rewrite fraction_eq by lia. rewrite !Z.mul_0_l.
  change 0 with (0 * 2 ^ (0 + 1074)) at 1. rewrite round_pos_exact by lia. reflexivity.
Qed.

Lemma fraction_bounds us : 0 <= us < 1000000 -> 0 <= fraction us <= one.
Proof.
  intros H. rewrite fraction_eq by lia. pose proof one_pos. pose proof MICRO_SEC_pos.
  pose proof scale_pos.
  split; [apply round_pos_nonneg; [lia | rewrite <- Z.mul_assoc; nia]|].
  replace one with (1 * 2 ^ 1074) at 2 by (unfold one; lia).
  rewrite <- (round_pos_exact 1 1074 1074) by lia.
  apply round_pos_mono; [lia|]. split; [nia|].
  rewrite Z.pow_add_r by lia. fold one. rewrite Z.mul_1_l.
  assert (us * Mcp.MICRO_SEC <= one); [|nia].
  rewrite one_split. unfold Mcp.MICRO_SEC.
  assert (0 < 2 ^ 1002) by (apply Z.pow_pos_nonneg; lia). nia.
Qed.

Lemma timedelta_seconds (a b : Z) :
  let d := Mcp.datetime_sub a b in
  Mcp.days d * Mcp.SECS_PER_DAY + Mcp.seconds d = (a - b) / 1000000
  /\ Mcp.microseconds d = (a - b) mod 1000000.
Proof.
  unfold Mcp.datetime_sub, Mcp.SECS_PER_DAY. simpl. split; [|reflexivity].
  set (u := a - b).
  rewrite (Z.div_mod u (86400 * 1000000)) at 3 by lia.
  replace (86400 * 1000000 * (u / (86400 * 1000000)))
    with (u / (86400 * 1000000) * 86400 * 1000000) by lia.
  rewrite Z.div_add_l by lia. reflexivity.
Qed.

Lemma sleep_time_seconds now run_time :
  Mcp.sleep_time now run_time = Qmax 0 (to_Q (seconds_of (run_time - now))).
Proof.
  unfold Mcp.sleep_time, seconds_of, fraction.
  destruct (timedelta_seconds run_time now) as [-> ->]. reflexivity.
Qed.

Lemma round_0 k : 0 <= k -> round 0 k = 0.
Proof.
  intros Hk. unfold round. simpl.
  replace (round_pos 0 k) with (round_pos (0 * 2 ^ (0 + k)) k)
    by (rewrite Z.mul_0_l; reflexivity).
  rewrite round_pos_exact by lia. reflexivity.
Qed.

Lemma seconds_of_range d :
  0 <= d < 2 ^ 53 * 1000000 ->
  seconds_of d = round (d / 1000000 * one + fraction (d mod 1000000)) 0.
Proof.
  intros H. unfold seconds_of, add. rewrite of_int_exact; [reflexivity|].
  pose proof (Z.div_mod d 1000000 ltac:(lia)).
  pose proof (Z.mod_pos_bound d 1000000 ltac:(lia)).
  change (2 ^ 53) with 9007199254740992 in *. lia.
Qed.

(** A time that is not in the future makes no positive number of
    seconds. *)
Lemma seconds_of_past d : d <= 0 -> seconds_of d <= 0.
Proof.
  intros H. unfold seconds_of, add. rewrite <- (round_0 0) by lia.
  apply round_mono; [lia|].
  pose proof (Z.div_mod d 1000000 ltac:(lia)).
  pose proof (Z.mod_pos_bound d 1000000 ltac:(lia)) as Hm.
  pose proof (fraction_bounds _ Hm). pose proof one_pos.
  destruct (Z.eq_dec (d mod 1000000) 0) as [E|E].
  - rewrite E, fraction_0.
    assert (Hi : d / 1000000 <= 0) by lia.
    pose proof (of_int_mono _ _ Hi) as Ho. rewrite (of_int_exact 0) in Ho by lia. lia.
  - assert (Hi : d / 1000000 <= -1) by lia.
    pose proof (of_int_mono _ _ Hi) as Ho. rewrite (of_int_exact (-1)) in Ho by lia. lia.
Qed.

Lemma seconds_of_mono d1 d2 :
  0 <= d1 <= d2 -> d2 < 2 ^ 53 * 1000000 -> seconds_of d1 <= seconds_of d2.
Proof.
  intros H Hb. rewrite !seconds_of_range by lia. apply round_mono; [lia|].
  pose proof (Z.div_mod d1 1000000 ltac:(lia)).
  pose proof (Z.div_mod d2 1000000 ltac:(lia)).
  pose proof (Z.mod_pos_bound d1 1000000 ltac:(lia)) as Hm1.
  pose proof (Z.mod_pos_bound d2 1000000 ltac:(lia)) as Hm2.
  pose proof (fraction_bounds _ Hm1). pose proof (fraction_bounds _ Hm2).
  pose proof one_pos.
  destruct (Z.eq_dec (d1 / 1000000) (d2 / 1000000)) as [E|E].
  - rewrite E. assert (fraction (d1 mod 1000000) <= fraction (d2 mod 1000000)); [|lia].
    apply fraction_mono; lia.
  - assert (d1 / 1000000 + 1 <= d2 / 1000000) by lia. nia.
Qed.

(** Whole seconds are exact. *)
Lemma seconds_of_whole N : 0 <= N < 2 ^ 53 -> seconds_of (N * 1000000) = N * one.
Proof.
  intros H. rewrite seconds_of_range
    by (change (2 ^ 53) with 9007199254740992 in *; lia).
  rewrite Z.div_mul, Z.mod_mul by lia. rewrite fraction_0, Z.add_0_r.
  unfold round. pose proof one_pos.
  destruct (Z.ltb_spec (N * one) 0); [nia|].
  replace (N * one) with (N * 2 ^ (1074 + 0)) at 1 by (unfold one; reflexivity).
  rewrite round_pos_exact by lia. reflexivity.
Qed.

(** [.000001] is 10^-6 up to a relative error of 2^-54. *)
Lemma MICRO_SEC_error : Z.abs (1000000 * Mcp.MICRO_SEC - one) * 2 ^ 54 <= one.
Proof.
  rewrite one_split. unfold Mcp.MICRO_SEC.
  assert (0 < 2 ^ 1002) by (apply Z.pow_pos_nonneg; lia).
  change (2 ^ 54) with 18014398509481984. lia.
Qed.

Lemma log2_scale : 1074 + 52 <= Z.log2 (one * Mcp.MICRO_SEC).
Proof.
  apply Z.log2_le_pow2; [apply scale_pos|].
  unfold one, Mcp.MICRO_SEC.
  rewrite Z.pow_add_r by lia.
  apply Z.mul_le_mono_nonneg_l; [apply Z.pow_nonneg; lia|].
  assert (0 < 2 ^ 1002) by (apply Z.pow_pos_nonneg; lia).
  change (2 ^ 52) with 4503599627370496. nia.
Qed.

Lemma fraction_error us :
  0 <= us < 1000000 ->
  Z.abs (fraction us - us * Mcp.MICRO_SEC) * 2 ^ 53 <= us * Mcp.MICRO_SEC.
Proof.
  intros H. destruct (Z.eq_dec us 0) as [->|Hne].
  - rewrite fraction_0. simpl. lia.
  - rewrite fraction_eq by lia.
    pose proof scale_pos. pose proof one_pos. pose proof MICRO_SEC_pos.
    assert (Hp : 0 < us * one * Mcp.MICRO_SEC) by (rewrite <- Z.mul_assoc; nia).
    pose proof (round_pos_error (us * one * Mcp.MICRO_SEC) 1074 ltac:(lia) Hp) as He.
    fold one in He.
    assert (Hlog : 1074 + 52 <= Z.log2 (us * one * Mcp.MICRO_SEC)).
    { etransitivity; [apply log2_scale|]. apply Z.log2_le_mono.
      rewrite <- Z.mul_assoc. nia. }
    specialize (He (or_intror Hlog)).
    set (f := round_pos (us * one * Mcp.MICRO_SEC) 1074) in *.
    replace (f * one - us * one * Mcp.MICRO_SEC)
      with ((f - us * Mcp.MICRO_SEC) * one) in He by ring.
    rewrite Z.abs_mul, (Z.abs_eq one) in He by lia.
    replace (us * one * Mcp.MICRO_SEC) with (us * Mcp.MICRO_SEC * one) in He by ring.
    replace (Z.abs (f - us * Mcp.MICRO_SEC) * one * 2 ^ 53)
      with (Z.abs (f - us * Mcp.MICRO_SEC) * 2 ^ 53 * one) in He by ring.
    apply Z.mul_le_mono_pos_r in He; [exact He | lia].
Qed.

(** The value is the exact number of seconds up to a relative error of
    2^-51. *)
Lemma seconds_of_error d :
  0 <= d < 2 ^ 53 * 1000000 ->
  2 ^ 51 * Z.abs (1000000 * seconds_of d - d * one) <= d * one.
Proof.
  intros H. rewrite seconds_of_range by lia.
  pose proof (Z.div_mod d 1000000 ltac:(lia)) as Hd.
  pose proof (Z.mod_pos_bound d 1000000 ltac:(lia)) as Hm.
  set (i := d / 1000000) in *. set (us := d mod 1000000) in *.
  assert (Hi : 0 <= i) by lia.
  pose proof (fraction_bounds us Hm) as Hfb.
  pose proof (fraction_error us Hm) as Hfe.
  pose proof one_pos. pose proof MICRO_SEC_pos.
  set (f := fraction us) in *.
  assert (HS : 0 <= i * one + f) by nia.
  assert (Hr : Z.abs (round (i * one + f) 0 - (i * one + f)) * 2 ^ 53 <= i * one + f).
  { unfold round. destruct (Z.ltb_spec (i * one + f) 0); [lia|].
    destruct (Z.eq_dec (i * one + f) 0) as [E|E].
    - rewrite E. replace (round_pos 0 0) with (round_pos (0 * 2 ^ (0 + 0)) 0) by reflexivity.
      rewrite round_pos_exact by lia. simpl. lia.
    - pose proof (round_pos_error (i * one + f) 0 ltac:(lia) ltac:(lia) (or_introl eq_refl))
        as He.
      change (2 ^ 0) with 1 in He. rewrite Z.mul_1_r in He. exact He. }
  set (res := round (i * one + f) 0) in *.
  pose proof MICRO_SEC_error as Hme.
  assert (Hc : Z.abs (1000000 * (us * Mcp.MICRO_SEC) - us * one) * 2 ^ 54 <= us * one).
  { replace (1000000 * (us * Mcp.MICRO_SEC) - us * one)
      with (us * (1000000 * Mcp.MICRO_SEC - one)) by ring.
    rewrite Z.abs_mul, (Z.abs_eq us) by lia.
    rewrite <- Z.mul_assoc. apply Z.mul_le_mono_nonneg_l; lia. }
  set (A := i * one) in *. set (B := us * Mcp.MICRO_SEC) in *. set (C := us * one) in *.
  replace (d * one) with (1000000 * A + C) by (subst A C; rewrite Hd; ring).
  assert (0 <= A) by (subst A; nia). assert (0 <= B) by (subst B; nia).
  assert (0 <= C) by (subst C; nia).
  change (2 ^ 53) with 9007199254740992 in *.
  change (2 ^ 54) with 18014398509481984 in *.
  change (2 ^ 51) with 2251799813685248.
  clearbody A B C f res. clear - Hr Hfe Hc H2 H3 H4 HS Hfb. lia.
Qed.

Lemma to_Q_den : Z.pos (Qden (to_Q 0)) = one.
Proof. unfold to_Q. cbn [Qden]. apply Z2Pos.id, one_pos. Qed.

Lemma Qmax_0_to_Q s : 0 <= s -> (Qmax 0 (to_Q s) == to_Q s)%Q.
Proof.
  intros H. apply Q.max_r. unfold Qle, to_Q. cbn [Qnum Qden]. lia.
Qed.

Lemma Qmax_0_to_Q_past s : s <= 0 -> Qmax 0 (to_Q s) = 0%Q.
Proof.
  intros H. unfold Qmax, GenericMinMax.gmax, Qcompare, to_Q. cbn [Qnum Qden].
  rewrite Z.mul_0_l, Z.mul_1_r.
  destruct (Z.compare_spec 0 s); try reflexivity. lia.
Qed.

(** A time in the future makes a positive number of seconds. *)
Lemma seconds_of_future d : 0 < d -> 0 < seconds_of d.
Proof.
  intros H. unfold seconds_of, add.
  pose proof (Z.div_mod d 1000000 ltac:(lia)) as Hd.
  pose proof (Z.mod_pos_bound d 1000000 ltac:(lia)) as Hm.
  pose proof (fraction_bounds _ Hm) as Hfb. pose proof one_pos.
  assert (Hi : 0 <= d / 1000000) by lia.
  pose proof (of_int_mono _ _ Hi) as Ho. rewrite (of_int_exact 0) in Ho by lia.
  set (S := of_int (d / 1000000) + fraction (d mod 1000000)).
  assert (HS : 0 < S).
  { subst S. destruct (Z.eq_dec (d mod 1000000) 0) as [E|E].
    - assert (Hi1 : 1 <= d / 1000000) by lia.
      pose proof (of_int_mono _ _ Hi1) as Ho1.
      rewrite (of_int_exact 1) in Ho1 by lia. lia.
    - pose proof (fraction_error _ Hm) as He. pose proof MICRO_SEC_pos.
      assert (0 < d mod 1000000 * Mcp.MICRO_SEC) by nia.
      assert (0 < fraction (d mod 1000000)); [|lia].
      change (2 ^ 53) with 9007199254740992 in He. lia. }
  unfold round. destruct (Z.ltb_spec S 0); [lia|].
  pose proof (round_pos_error S 0 ltac:(lia) HS (or_introl eq_refl)) as He.
  change (2 ^ 0) with 1 in He. rewrite Z.mul_1_r in He.
  change (2 ^ 53) with 9007199254740992 in He. lia.
Qed.

(** [.000001] is the binary64 number nearest to 10^-6: it has 53
    significant bits and is within half a unit of its last place. *)
Lemma MICRO_SEC_nearest :
  Mcp.MICRO_SEC = 4722366482869645 * 2 ^ 1002
  /\ 2 ^ 52 <= 4722366482869645 < 2 ^ 53
  /\ 2 * Z.abs (1000000 * Mcp.MICRO_SEC - one) <= 1000000 * 2 ^ 1002.
Proof.
  split; [reflexivity|]. split; [split; [discriminate | reflexivity]|].
  rewrite one_split. unfold Mcp.MICRO_SEC.
  assert (0 < 2 ^ 1002) by (apply Z.pow_pos_nonneg; lia). lia.
Qed.

(** A tenth of a second is not 1/10: the product is rounded, as in
    Python, where [100000 * .000001] is [0.09999999999999999]. *)
Lemma sleep_time_tenth :
  (Mcp.sleep_time 0%Z 100000%Z == 7205759403792793 # 72057594037927936)%Q.
Proof. vm_compute. reflexivity. Qed.

End Binary64Facts.

(** C9: [sleep_time(run_time)] is [max(0, run_time - now)] in seconds,
    computed in binary64: its value is within a relative error of 2^-51
    of the exact number of seconds (microseconds kept); it is exactly 0
    for a [run_time] at or before now and exactly [N] for a [run_time]
    [N] whole seconds ahead; and it is monotone in [run_time].  (Time is
    counted in microseconds; differences stay below 2^53 seconds, as
    those of two [datetime]s do.) *)
Theorem sleep_time_floor_and_monotone :
  (forall now run_time : Z,
     run_time - now < 2 ^ 53 * 1000000 ->
     let exact := Qmax 0 (run_time - now # 1000000) in
     (exact * (1 - (1 # 2251799813685248)) <= Mcp.sleep_time now run_time)%Q
     /\ (Mcp.sleep_time now run_time <= exact * (1 + (1 # 2251799813685248)))%Q)
  /\ (forall now run_time : Z,
        run_time <= now -> Mcp.sleep_time now run_time = 0%Q)
  /\ (forall now N : Z,
        0 <= N < 2 ^ 53 ->
        (Mcp.sleep_time now (now + N * 1000000)%Z == inject_Z N)%Q)
  /\ (forall now r1 r2 : Z,
        r1 <= r2 -> r2 - now < 2 ^ 53 * 1000000 ->
        (Mcp.sleep_time now r1 <= Mcp.sleep_time now r2)%Q).
Proof.
  split; [|split; [|split]].
  - intros now run_time Hb exact. rewrite Binary64Facts.sleep_time_seconds.
    set (d := run_time - now) in *.
    destruct (Z.le_gt_cases d 0) as [Hd|Hd].
    + rewrite (Binary64Facts.Qmax_0_to_Q_past _ (Binary64Facts.seconds_of_past d Hd)).
      assert (E : exact = 0%Q).
      { subst exact. unfold Qmax, GenericMinMax.gmax, Qcompare. cbn [Qnum Qden].
        rewrite Z.mul_0_l, Z.mul_1_r.
        destruct (Z.compare_spec 0 d); try reflexivity. lia. }
      rewrite E. split; discriminate.
    + pose proof (Binary64Facts.seconds_of_error d ltac:(lia)) as He.
      pose proof Binary64Facts.one_pos.
      assert (Hs : 0 <= seconds_of d).
      { change (2 ^ 51) with 2251799813685248 in He. nia. }
      rewrite (Binary64Facts.Qmax_0_to_Q _ Hs).
      assert (E : (exact == d # 1000000)%Q).
      { subst exact. apply Q.max_r. unfold Qle. cbn [Qnum Qden]. lia. }
      rewrite E. unfold Binary64.to_Q.
      assert (HP : Z.pos (Z.to_pos Binary64.one) = Binary64.one) by (apply Z2Pos.id; lia).
      set (P := Z.to_pos Binary64.one) in *. clearbody P.
      set (s := seconds_of d) in *. clearbody s.
      change (2 ^ 51) with 2251799813685248 in He.
      unfold Qle, Qmult, Qminus, Qplus, Qopp. cbn [Qnum Qden].
      rewrite !Pos2Z.inj_mul, HP.
      replace (d * (1 * 2251799813685248 + - (1) * 1) * Binary64.one)
        with (d * Binary64.one * 2251799813685247) by ring.
      replace (d * (1 * 2251799813685248 + 1 * 1) * Binary64.one)
        with (d * Binary64.one * 2251799813685249) by ring.
      set (D := d * Binary64.one) in *. clearbody D. lia.
  - intros now run_time Hle. rewrite Binary64Facts.sleep_time_seconds.
    apply Binary64Facts.Qmax_0_to_Q_past, Binary64Facts.seconds_of_past. lia.
  - intros now N HN. rewrite Binary64Facts.sleep_time_seconds.
    replace (now + N * 1000000 - now) with (N * 1000000) by lia.
    rewrite Binary64Facts.seconds_of_whole by exact HN. pose proof Binary64Facts.one_pos.
    rewrite Binary64Facts.Qmax_0_to_Q by nia.
    unfold Binary64.to_Q, Qeq, inject_Z. cbn [Qnum Qden].
    rewrite Z2Pos.id by lia. lia.
  - intros now r1 r2 Hle Hb. rewrite !Binary64Facts.sleep_time_seconds.
    destruct (Z.le_gt_cases (r1 - now) 0) as [Hd|Hd].
    + rewrite (Binary64Facts.Qmax_0_to_Q_past _ (Binary64Facts.seconds_of_past _ Hd)). apply Q.le_max_l.
    + apply Q.max_le_compat_l.
      unfold Binary64.to_Q, Qle. cbn [Qnum Qden].
      apply Z.mul_le_mono_nonneg_r; [lia|].
      apply Binary64Facts.seconds_of_mono; lia.
Qed.

(** A run due half a second ago, one due in 90 seconds, one in a tenth
    of a second. *)
Lemma sleep_time_floor_and_monotone_witness :
  Mcp.sleep_time 1000000000 999500000 = 0%Q
  /\ (Mcp.sleep_time 1000000000%Z (1000000000 + 90 * 1000000)%Z == inject_Z 90)%Q
  /\ (Mcp.sleep_time 1000000000%Z 999500000%Z
      <= Mcp.sleep_time 1000000000%Z 1090000000%Z)%Q
  /\ ((100000 # 1000000) * (1 - (1 # 2251799813685248))
      <= Mcp.sleep_time 0%Z 100000%Z)%Q
  /\ (Mcp.sleep_time 0%Z 100000%Z
      <= (100000 # 1000000) * (1 + (1 # 2251799813685248)))%Q.
Proof.
  destruct sleep_time_floor_and_monotone as (Hacc & H0 & HN & Hmono).
  split; [apply H0; lia|].
  split; [apply HN; split; [lia | vm_compute; reflexivity]|].
  split; [apply Hmono; [lia | vm_compute; reflexivity]|].
  apply (Hacc 0 100000). vm_compute. reflexivity.
Defined.

(** ** C2: [store_data] with a write outstanding *)

(** C2: with persistence enabled and the previous writer still running,
    [store_data] starts no second write; it also returns before the
    [reactor.callLater] of line 64, so that no re-arm takes place.  With
    no write outstanding the parent forks once and re-arms once. *)
Theorem store_data_outstanding_write :
  forall (waitpid : Z -> Z) (fork : Z) (h : Mcp.StateHandler) (pid : Z),
    Mcp.writing_enabled h = true ->
    Mcp.write_pid h = Some pid ->
    pid <> 0 ->
    (waitpid pid = 0 ->
     Mcp.store_data waitpid fork h = (h, [Mcp.Waitpid pid]))
    /\ (waitpid pid <> 0 -> fork <> 0 ->
        let r := Mcp.store_data waitpid fork h in
        Mcp.write_pid (fst r) = Some fork
        /\ Mcp.forks (snd r) = 1%nat /\ Mcp.rearms (snd r) = 1%nat).
Proof.
  intros waitpid fork h pid He Hp Hpid. unfold Mcp.store_data, Mcp.write_outstanding.
  rewrite He, Hp. cbn [negb].
  destruct (Z.eqb_spec pid 0) as [|_]; [contradiction|].
  split.
  - intros Hw. rewrite Hw. reflexivity.
  - intros Hw Hf. destruct (Z.eqb_spec (waitpid pid) 0) as [|_]; [contradiction|].
    destruct (Z.eqb_spec fork 0) as [|_]; [contradiction|].
    cbn. auto.
Qed.

(** The writer 4242 has not exited: nothing is forked and nothing is
    scheduled. *)
Lemma store_data_outstanding_write_witness :
  let r := Mcp.store_data (fun _ => 0) 4243 handler_writing in
  fst r = handler_writing /\ Mcp.forks (snd r) = 0%nat /\ Mcp.rearms (snd r) = 0%nat.
Proof.
  destruct (store_data_outstanding_write (fun _ => 0) 4243 handler_writing 4242
              eq_refl eq_refl ltac:(discriminate)) as [H _].
  cbv zeta. rewrite (H eq_refl). repeat split.
Defined.

(** ** C8: [schedule_next_run] *)

(** C8: once a call of [schedule_next_run] has left the job with a
    scheduled run pending, a second call changes nothing and arms no
    timer; the first call arms at most one timer, and exactly one when the
    job had no pending run and [next_run] answered a run. *)
Theorem schedule_next_run_idempotent :
  forall (next_run : Mcp.JobStore -> nat -> option nat * Mcp.JobStore)
         (now now' : Z) (job : nat) (s : Mcp.State),
    let s1 := Mcp.schedule_next_run next_run now job s in
    Mcp.has_scheduled_run (Mcp.store s1) job = true ->
    Mcp.schedule_next_run next_run now' job s1 = s1
    /\ (length (Mcp.timers s1) <= S (length (Mcp.timers s)))%nat
    /\ (Mcp.has_scheduled_run (Mcp.store s) job = false ->
        forall r x,
          next_run (Mcp.store s) job = (Some r, x) ->
          is_Some (Mcp.run_heap x !! r) ->
          exists t, Mcp.timers s1 = Mcp.timers s ++ [t] /\ Mcp.timer_run t = r).
Proof.
  intros next_run now now' job s s1 Hpending. split; [|split].
  - unfold Mcp.schedule_next_run at 1. rewrite Hpending. reflexivity.
  - subst s1. unfold Mcp.schedule_next_run.
    destruct (Mcp.has_scheduled_run (Mcp.store s) job); [lia|].
    destruct (next_run (Mcp.store s) job) as [[r|] st]; [|simpl; lia].
    unfold Mcp._schedule. simpl.
    destruct (Mcp.run_heap st !! r); simpl; [rewrite length_app; simpl|]; lia.
  - intros Hnone r x Hnext [run Hrun]. subst s1. unfold Mcp.schedule_next_run.
    rewrite Hnone, Hnext. unfold Mcp._schedule. simpl. rewrite Hrun.
    eexists. split; reflexivity.
Qed.

(** The nightly job is scheduled twice in a row: one timer. *)
Lemma schedule_next_run_idempotent_witness :
  let s1 := Mcp.schedule_next_run (next_run_at 86400000000) 0 0 one_job in
  Mcp.schedule_next_run (next_run_at 86400000000) 5 0 s1 = s1
  /\ length (Mcp.timers s1) = 1%nat.
Proof.
  cbv zeta.
  destruct (schedule_next_run_idempotent (next_run_at 86400000000) 0 5 0%nat one_job
              eq_refl) as (H & _ & _).
  split; [exact H | reflexivity].
Defined.

(** ** C1: [absorb_previous] after a change of command or scheduler *)

Lemma never_raise {A} e : never_returns (@raise A e).
Proof. intros w a. discriminate. Qed.

Lemma never_bind_l {A B} (m : M A) (k : A -> M B) :
  never_returns m -> never_returns (bind m k).
Proof.
  intros H w b. unfold bind. specialize (H w).
  destruct (m w) as [[a|e|] w']; simpl in *; [|discriminate..].
  exfalso. apply (H a). reflexivity.
Qed.

Lemma never_bind_r {A B} (m : M A) (k : A -> M B) :
  (forall a, never_returns (k a)) -> never_returns (bind m k).
Proof.
  intros H w b. unfold bind.
  destruct (m w) as [[a|e|] w']; simpl; [apply H | discriminate..].
Qed.

Lemma option_string_eqb_eq a b : option_string_eqb a b = true <-> a = b.
Proof.
  destruct a as [x|], b as [y|]; simpl; try (split; congruence).
  rewrite String.eqb_eq. split; congruence.
Qed.

(** Whenever the command or the scheduler differs and the previous
    service has an instance, [absorb_previous] does not complete: the
    first pass of the loop over the inherited instances ends, at the
    latest, in [removed_instances += 1] on the unbound local. *)
Lemma absorb_previous_rebuild_never_completes render fuel w self prev s0 p0 :
  service_heap w !! self = Some s0 ->
  service_heap w !! prev = Some p0 ->
  command s0 <> command p0 \/ scheduler s0 <> scheduler p0 ->
  instances p0 <> [] ->
  forall a, fst (absorb_previous render fuel self prev w) <> Ret a.
Proof.
  intros Hs Hp Hdiff Hne a. unfold absorb_previous.
  rewrite (bind_ret_run _ _ _ _ _ (get_service_run _ _ _ Hs)).
  rewrite (bind_ret_run _ _ _ _ _ (get_service_run _ _ _ Hp)).
  assert (Hflag : negb (option_string_eqb (command s0) (command p0))
                  || negb (option_string_eqb (scheduler s0) (scheduler p0)) = true).
  { apply orb_true_iff. destruct Hdiff as [H|H]; [left|right];
      apply negb_true_iff, not_true_is_false; rewrite option_string_eqb_eq; exact H. }
  rewrite Hflag.
  rewrite (bind_ret_run _ _ _ _ _ (update_service_run _ _ _ _ Hs)).
  set (w1 := set_service_heap w _).
  assert (Hp1 : exists p1, service_heap w1 !! prev = Some p1 /\ instances p1 = instances p0).
  { subst w1. simpl. destruct (decide (prev = self)) as [->|Hn].
    - eexists. split; [apply list_lookup_insert_eq; eapply lookup_lt_Some; eauto|].
      simpl. congruence.
    - exists p0. split; [rewrite list_lookup_insert_ne by congruence; exact Hp | reflexivity]. }
  destruct Hp1 as (p1 & Hp1 & Hi1).
  rewrite (bind_ret_run _ _ _ _ _ (update_service_run _ _ _ _ Hp1)).
  set (w2 := set_service_heap w1 _).
  assert (Hp2 : service_heap w2 !! prev = Some (with_service_machine p1 None))
    by (apply list_lookup_insert_eq; eapply lookup_lt_Some; eauto).
  rewrite (bind_ret_run _ _ _ _ _ (get_service_run _ _ _ Hp2)).
  cbn [instances with_service_machine]. rewrite Hi1.
  destruct (instances p0) as [|i rest]; [congruence|].
  apply never_bind_r. intros _. apply never_bind_l.
  cbn [for_each_with]. apply never_bind_l. apply never_bind_r. intros _.
  apply never_bind_r. intros _. apply never_raise.
Qed.

(** C1: the new definition of a service with two instances up changes the
    command.  [absorb_previous] stops the first inherited instance, then
    raises [UnboundLocalError] at line 376: the second instance is never
    stopped (it stays [up], still wired to the previous service, no kill
    is dispatched for it) and the reconciliation passes are not reached. *)
Theorem absorb_previous_rebuild_raises :
  let result := absorb_previous render_literal 16 1 0 world_new_command in
  let w' := snd result in
  fst result = Raise (UnboundLocalError "removed_instances")
  /\ ((state ∘ machine) <$> instance_heap w' !! 0%nat)
     = Some ServiceInstanceState.STATE_STOPPING
  /\ ((state ∘ machine) <$> instance_heap w' !! 1%nat)
     = Some ServiceInstanceState.STATE_UP
  /\ map (action_id ∘ snd) (node_runs w')
     = map (action_id ∘ snd) (node_runs world_new_command) ++ ["web.0.stop"].
Proof. vm_compute. repeat split. Qed.

(** ** C4: actions in flight *)


(** [_queue_monitor] forgets the monitor action and arms the next
    monitor timer when the interval is positive. *)
Lemma _queue_monitor_run w i x svc :
  instance_heap w !! i = Some x ->
  service_heap w !! service x = Some svc ->
  _queue_monitor i w
  = (Ret tt,
     set_reactor
       (set_instance_heap w (<[i := with_monitor_action x None]> (instance_heap w)))
       (reactor w ++ map (fun k => mkDelayedCall k (CB_run_monitor i)) (requeue svc))).
Proof.
  intros Hx Hs. unfold _queue_monitor.
  rewrite (bind_ret_run _ _ _ _ _ (update_instance_run _ _ _ _ Hx)).
  set (w1 := set_instance_heap w _).
  assert (Hx1 : instance_heap w1 !! i = Some (with_monitor_action x None)).
  { apply list_lookup_insert_eq. eapply lookup_lt_Some; eauto. }
  rewrite (bind_ret_run _ _ _ _ _ (get_instance_run _ _ _ Hx1)).
  assert (Hs1 : service_heap w1 !! service (with_monitor_action x None) = Some svc)
    by exact Hs.
  rewrite (bind_ret_run _ _ _ _ _ (get_service_run _ _ _ Hs1)).
  unfold requeue. destruct (monitor_interval svc) as [k|]; simpl.
  - destruct (0 <? k); simpl.
    + reflexivity.
    + unfold ret. rewrite app_nil_r. destruct w; reflexivity.
  - unfold ret. rewrite app_nil_r. destruct w; reflexivity.
Qed.



(** The run in full: the monitor timer queued when the kill completed
    fires, [_run_monitor] passes its guard, and a second monitor action
    is dispatched while the first has not completed. *)
Lemma second_monitor_after_kill :
  let r := run_ops render_literal monitor_after_kill (boot 1) in
  fst r = Ret tt
  /\ map (action_id ∘ snd) (node_runs (snd r))
     = ["web.0.start"; "web.0.monitor"; "web.0.stop"; "web.0.monitor"].
Proof. vm_compute. split; reflexivity. Qed.

(** ** C7: snapshot, then restore *)

Lemma restore_instance_run render w s svc pr pool t d n pid :
  service_heap w !! s = Some svc ->
  node_pool svc = Some pr ->
  pool_heap w !! pr = Some pool ->
  valid_refs w (instances svc) ->
  pid_file_template svc = Some t ->
  truthy t = true ->
  pool_getitem pool (data_node d) = Some n ->
  render t (mkCommandContext (name svc) (data_instance_number d) (hostname n))
  = Some pid ->
  let y := restored_instance s svc n d pid in
  restore_instance render s d w
  = (Ret tt,
     mkWorld (instance_heap w ++ [y])
       (<[s := with_instances svc
                 (map fst (sort_by_key
                             (keyed w (instances svc)
                              ++ [(length (instance_heap w), data_instance_number d)])))]>
          (service_heap w))
       (pool_heap w) (reactor w)
       (node_runs w ++ [(n, monitor_command (instance_id y) pid)]) (log w)).
Proof.
  intros Hs Hnp Hpool Hv Ht Htt Hn Hr y.
  assert (Hslt : (s < length (service_heap w))%nat) by (eapply lookup_lt_Some; eauto).
  unfold restore_instance.
  rewrite (bind_ret_run _ _ _ _ _ (get_service_run _ _ _ Hs)), Hnp.
  cbn [from_option]. unfold ret at 1. unfold bind at 1.
  assert (Hgp : get_pool pr w = (Ret pool, w))
    by (unfold get_pool, bind, gets, from_option; rewrite Hpool; reflexivity).
  rewrite (bind_ret_run _ _ _ _ _ Hgp), Hn.
  rewrite (bind_ret_run _ _ _ _ _ (_create_instance_run w s svc n _ Hs Hv)).
  set (i := length (instance_heap w)).
  set (x0 := new_instance s svc n (data_instance_number d)).
  set (svc2 := with_instances svc _).
  set (w2 := mkWorld _ _ _ _ _ _).
  assert (Hx2 : instance_heap w2 !! i = Some x0)
    by (simpl; apply list_lookup_middle; reflexivity).
  rewrite (bind_ret_run _ _ _ _ _ (update_instance_run _ _ _ _ Hx2)).
  set (x3 := with_machine x0 _).
  set (w3 := set_instance_heap w2 _).
  assert (Hx3 : instance_heap w3 !! i = Some x3).
  { simpl. apply list_lookup_insert_eq. rewrite length_app. simpl. lia. }
  assert (Hs3 : service_heap w3 !! s = Some svc2)
    by (simpl; apply list_lookup_insert_eq; exact Hslt).
  unfold _run_monitor.
  rewrite (bind_ret_run _ _ _ _ _ (get_instance_run _ _ _ Hx3)).
  cbn [x3 x0 new_instance with_machine monitor_action].
  rewrite (bind_ret_run _ _ _ _ _
             (ServiceInstance_transition_unlisted w3 i x3 "monitor" Hx3 eq_refl)).
  unfold pid_file.
  rewrite bind_assoc, (bind_ret_run _ _ _ _ _ (get_instance_run _ _ _ Hx3)).
  change (service x3) with s.
  rewrite bind_assoc, (bind_ret_run _ _ _ _ _ (get_service_run _ _ _ Hs3)).
  change (pid_file_template svc2) with (pid_file_template svc). rewrite Ht, Htt.
  change (context svc2 x3)
    with (mkCommandContext (name svc) (data_instance_number d) (hostname n)).
  rewrite Hr. unfold ret at 1. unfold bind at 1.
  rewrite (bind_ret_run _ _ _ _ _ (update_instance_run _ _ _ _ Hx3)).
  set (w4 := set_instance_heap w3 _).
  assert (Hx4 : exists x4, instance_heap w4 !! i = Some x4 /\ node x4 = n).
  { eexists. split; [simpl; apply list_lookup_insert_eq; rewrite length_insert, length_app;
                     simpl; lia | reflexivity]. }
  destruct Hx4 as (x4 & Hx4 & Hn4).
  rewrite (bind_ret_run _ _ _ _ _ (get_instance_run _ _ _ Hx4)), Hn4.
  unfold node_run, modify. f_equal. subst w4 w3 w2. unfold set_node_runs, set_instance_heap.
  simpl. f_equal.
  rewrite list_insert_insert_eq. rewrite insert_app_r_alt by lia.
  rewrite Nat.sub_diag. reflexivity.
Qed.
Lemma restore_loop render s pr pool t ds nps :
  Forall2 (fun d np => True) ds nps ->
  forall w svc,
    Forall2 (restorable render (name svc) t pool) ds nps ->
    service_heap w !! s = Some svc ->
    node_pool svc = Some pr ->
    pool_heap w !! pr = Some pool ->
    valid_refs w (instances svc) ->
    pid_file_template svc = Some t ->
    truthy t = true ->
    let ys := zip_with (fun d np => restored_instance s svc (fst np) d (snd np)) ds nps in
    exists w' roster,
      for_each ds (restore_instance render s) w = (Ret tt, w')
      /\ instance_heap w' = instance_heap w ++ ys
      /\ service_heap w' = <[s := with_instances svc roster]> (service_heap w)
      /\ roster ≡ₚ instances svc ++ seq (length (instance_heap w)) (length ds)
      /\ pool_heap w' = pool_heap w
      /\ node_runs w' = node_runs w ++ omap monitor_dispatch ys.
Proof.
  induction 1 as [|d np ds nps _ _ IH]; intros w svc Hall Hs Hnp Hpool Hv Ht Htt ys.
  - exists w, (instances svc). simpl. rewrite !app_nil_r.
    repeat split; auto. symmetry. apply list_insert_id. rewrite Hs. f_equal.
    destruct svc; reflexivity.
  - apply Forall2_cons_1 in Hall as [[Hn Hr] Hall].
    assert (Hslt : (s < length (service_heap w))%nat) by (eapply lookup_lt_Some; eauto).
    cbn [for_each].
    rewrite (bind_ret_run _ _ _ _ _
               (restore_instance_run render w s svc pr pool t d (fst np) (snd np)
                  Hs Hnp Hpool Hv Ht Htt Hn Hr)).
    set (y := restored_instance s svc (fst np) d (snd np)).
    set (sorted := map fst (sort_by_key _)).
    set (svc1 := with_instances svc sorted).
    set (w1 := mkWorld _ _ _ _ _ _).
    assert (Hperm : sorted ≡ₚ length (instance_heap w) :: instances svc)
      by apply sorted_roster_perm.
    assert (Hs1 : service_heap w1 !! s = Some svc1)
      by (simpl; apply list_lookup_insert_eq; exact Hslt).
    assert (Hv1 : valid_refs w1 (instances svc1)).
    { apply valid_refs_lt. simpl. rewrite Hperm, length_app. simpl. constructor; [lia|].
      apply valid_refs_lt in Hv. eapply Forall_impl; [exact Hv|]. simpl. lia. }
    destruct (IH w1 svc1 Hall Hs1 Hnp Hpool Hv1 Ht Htt)
      as (w' & roster & Hrun & Hh & Hsh & Hro & Hph & Hnr).
    exists w', roster. split; [exact Hrun|]. split; [|split; [|split; [|split]]].
    + rewrite Hh. simpl. rewrite <- app_assoc. reflexivity.
    + rewrite Hsh. simpl. rewrite list_insert_insert_eq. reflexivity.
    + rewrite Hro. simpl. rewrite Hperm, length_app. simpl.
      rewrite Nat.add_1_r. apply Permutation_middle.
    + exact Hph.
    + rewrite Hnr. simpl. rewrite <- app_assoc. reflexivity.
Qed.

Lemma pool_getitem_hostname pool h n :
  pool_getitem pool h = Some n -> hostname n = h.
Proof.
  unfold pool_getitem. intros H. apply find_some in H as [_ H].
  apply String.eqb_eq. exact H.
Qed.

(** The snapshot of a roster whose instances have their node in [pool]
    and a pid file: every record can be restored. *)
Lemma snapshot_restorable render w svc t pool l :
  Forall (fun i => exists x, instance_heap w !! i = Some x
                             /\ is_Some (pool_getitem pool (hostname (node x)))
                             /\ is_Some (render t (context svc x))) l ->
  exists ds nps,
    map_M instance_data l w = (Ret ds, w)
    /\ Forall2 (restorable render (name svc) t pool) ds nps
    /\ map data_instance_number ds = numbers w l.
Proof.
  induction 1 as [|i l (x & Hx & [n Hn] & [pid Hpid]) _ (ds & nps & Hrun & Hall & Hnum)].
  - exists [], []. repeat split. constructor.
  - exists (mkInstanceData (hostname (node x)) (instance_number x)
              (ServiceInstanceState.name (state (machine x))) :: ds), ((n, pid) :: nps).
    split; [|split].
    + cbn [map_M]. unfold instance_data at 1.
      rewrite bind_assoc, (bind_ret_run _ _ _ _ _ (get_instance_run _ _ _ Hx)).
      unfold ret at 1. unfold bind at 1. unfold bind at 1. rewrite Hrun. reflexivity.
    + constructor; [|exact Hall]. split; [exact Hn|]. simpl.
      rewrite (pool_getitem_hostname _ _ _ Hn). exact Hpid.
    + simpl. rewrite Hnum. unfold number_of. rewrite Hx. reflexivity.
Qed.
Lemma restored_instances_facts s svc ds nps :
  Forall2 (fun (d : InstanceData) (np : Node * string) => True) ds nps ->
  let ys := zip_with (fun d np => restored_instance s svc (fst np) d (snd np)) ds nps in
  length ys = length ds
  /\ map instance_number ys = map data_instance_number ds
  /\ Forall (fun y => state (machine y) = ServiceInstanceState.STATE_MONITORING
                      /\ is_Some (monitor_action y)
                      /\ start_action y = None
                      /\ stop_action y = None
                      /\ service y = s) ys
  /\ length (omap monitor_dispatch ys) = length ys.
Proof.
  induction 1 as [|d np ds nps _ _ (IH1 & IH2 & IH3 & IH4)]; simpl.
  - repeat split. constructor.
  - rewrite IH2. split; [f_equal; exact IH1|]. split; [reflexivity|]. split.
    + constructor; [|exact IH3]. repeat split. eexists. reflexivity.
    + f_equal. exact IH4.
Qed.


